(** * SIRClass.py: the SIR epidemic model, embedded and verified

    The source is one Python class, [SIRModel]: a constructor that stores the
    transmission rate, the recovery rate and the initial state, the vector
    field [sir_equations], the integrator driver [simulate] (a call to SciPy's
    [odeint], whose result is cached in the attribute [results]) and two
    plotting methods that read the cache.

    The embedding is shallow.  Methods are computations in a small monad with
    the three effects the class has: the instance's attributes (state), Python
    exceptions (errors) and the calls made to the outside world, that is
    warnings and matplotlib commands (a log).  Numbers are kept behind the
    three arithmetic operations the source applies to them, with two
    instances: IEEE-754 binary64 (Python's [float], Rocq's primitive floats)
    and exact rationals (Python's [fractions.Fraction], [Qc]). *)

From Stdlib Require Import String Floats ZArith QArith Qpower Qcanon List Bool
  Lia.
Import ListNotations.

#[local] Set Warnings "-inexact-float".
#[local] Set Implicit Arguments.

(** ** The Python runtime the class relies on *)

Module Py.

(** Exceptions the methods can raise themselves, and whatever an external
    callee raises. *)
Inductive exn : Type :=
| AttributeError (attr : string)
| ValueError (msg : string)
| External (name : string).

(** The outcome of evaluating an expression. *)
Inductive result (X : Type) : Type :=
| Ok (x : X)
| Raise (e : exn).
Arguments Ok {X} x.
Arguments Raise {X} e.

(** Categories of [warnings.warn]; [ODEintWarning] is how [odeint] tells that
    the integration did not succeed when [full_output] is off. *)
Inductive warning : Type :=
| ODEintWarning (msg : string)
| OtherWarning (msg : string).

Definition is_ODEintWarning (w : warning) : bool :=
  match w with ODEintWarning _ => true | OtherWarning _ => false end.

End Py.
Export Py.

(** ** Numbers

    [sir_equations] applies unary minus, binary minus and multiplication to
    its operands and nothing else; Python dispatches them on the operands'
    type. *)

Class PyNumber (A : Type) : Type := {
  neg : A -> A;
  sub : A -> A -> A;
  mul : A -> A -> A
}.

Declare Scope py_scope.
Delimit Scope py_scope with py.
Notation "- x" := (neg x) : py_scope.
Notation "x - y" := (sub x y) : py_scope.
Notation "x * y" := (mul x y) : py_scope.

(** Python [float]: binary64, round to nearest even; the operations never
    raise (overflow gives an infinity, an invalid operation a NaN). *)
#[export] Instance float_number : PyNumber float :=
  {| neg := PrimFloat.opp; sub := PrimFloat.sub; mul := PrimFloat.mul |}.

(** [fractions.Fraction]: exact rationals in lowest terms. *)
#[export] Instance fraction_number : PyNumber Qc :=
  {| neg := Qcopp; sub := Qcminus; mul := Qcmult |}.

(** ** Arrays

    A two-dimensional [ndarray] is its rows together with the number of
    columns (which the rows do not determine when there is none). *)

Record ndarray (A : Type) : Type := {
  ncols : nat;
  rows : list (list A)
}.

Definition nrows {A} (a : ndarray A) : nat := length (rows a).

(** Column [j] of a list of rows. *)
Definition column {A} (j : nat) (rs : list (list A)) : list A :=
  flat_map (fun r => match nth_error r j with Some x => [x] | None => [] end) rs.

(** The attribute [.T]. *)
Definition T {A} (a : ndarray A) : ndarray A :=
  {| ncols := nrows a;
     rows := map (fun j => column j (rows a)) (seq 0 (ncols a)) |}.

(** ** The outside world

    Calls to [matplotlib.pyplot] are recorded, in order, with their arguments;
    rendering, and what matplotlib itself may raise, is not modelled.  In
    particular [plot] of two sequences of different lengths raises in
    matplotlib: the theorems on what the plotting methods draw take
    sequences of one length. *)

Inductive plt_call (A : Type) : Type :=
| figure (width height : nat)
| plot (xs ys : list A) (label : string)
| xlabel (s : string)
| ylabel (s : string)
| title (s : string)
| legend
| show.
Arguments figure {A} width height.
Arguments xlabel {A} s.
Arguments ylabel {A} s.
Arguments title {A} s.
Arguments legend {A}.
Arguments show {A}.

Inductive event (A : Type) : Type :=
| Warn (w : warning)
| Plt (c : plt_call A).
Arguments Warn {A} w.

(** ** The class *)

(** An instance of [SIRModel]: the three attributes [__init__] sets, and
    [results], which does not exist until [simulate] has assigned it.  Lists
    and arrays are values here: no method of the class writes into one, and
    [odeint] works on its own copy of the initial state. *)
Record SIRModel (A : Type) : Type := {
  beta : A;
  gamma : A;
  initial_conditions : list A;
  results : option (ndarray A)
}.

(** What a call to [odeint(func, y0, t)] gives back to its caller: the array
    or an exception, and the warnings it issued on the way. *)
Definition solver (A : Type) : Type :=
  (list A -> A -> result (list A)) -> list A -> list A ->
  result (ndarray A) * list warning.

Section Methods.

Context {A : Type} `{PyNumber A}.

(** Method bodies: they read and write [self], may raise, and log the calls
    they make to the outside. *)
Definition M (X : Type) : Type :=
  SIRModel A -> result X * SIRModel A * list (event A).

Definition ret {X} (x : X) : M X := fun self => (Ok x, self, []).

Definition bind {X Y} (m : M X) (k : X -> M Y) : M Y :=
  fun self =>
    match m self with
    | (Ok x, self', l) =>
        let '(r, self'', l') := k x self' in (r, self'', l ++ l')
    | (Raise e, self', l) => (Raise e, self', l)
    end.

Definition raise {X} (e : exn) : M X := fun self => (Raise e, self, []).

Definition emit (c : plt_call A) : M unit := fun self => (Ok tt, self, [Plt c]).

(** [self.<attr>] for an attribute that [__init__] set. *)
Definition getattr {X} (field : SIRModel A -> X) : M X :=
  fun self => (Ok (field self), self, []).

(** [self.results]: an [AttributeError] while the attribute does not exist. *)
Definition getattr_results : M (ndarray A) :=
  fun self =>
    match results self with
    | Some r => (Ok r, self, [])
    | None => (Raise (AttributeError "results"), self, [])
    end.

(** [self.results = r]: the attribute is created or rebound, the others
    are not touched. *)
Definition set_results (self : SIRModel A) (r : ndarray A) : SIRModel A :=
  {| beta := beta self; gamma := gamma self;
     initial_conditions := initial_conditions self;
     results := Some r |}.

Definition setattr_results (r : ndarray A) : M unit :=
  fun self => (Ok tt, set_results self r, []).

(** [a, b, c = xs]: unpacking raises [ValueError] unless [xs] has exactly
    three items (the wording of the message depends on the interpreter). *)
Definition unpack3 {X Y} (xs : list X) (k : X -> X -> X -> M Y) : M Y :=
  match xs with
  | [a; b; c] => k a b c
  | _ :: _ :: _ :: _ :: _ => raise (ValueError "too many values to unpack (expected 3)")
  | _ => raise (ValueError "not enough values to unpack (expected 3)")
  end.

Notation "x <- c1 ;; c2" := (bind c1 (fun x => c2))
  (at level 61, c1 at next level, right associativity).
Notation "c1 ;; c2" := (bind c1 (fun _ => c2))
  (at level 61, right associativity).
Notation "'unpack' a , b , c := xs ;; k" := (unpack3 xs (fun a b c => k))
  (at level 61, a name, b name, c name, xs at next level, right associativity).

(** [SIRModel(beta, gamma, initial_conditions)]: [__init__] stores its three
    arguments and returns; the new object has no [results]. *)
Definition __init__ (beta gamma : A) (initial_conditions : list A)
  : result (SIRModel A) :=
  Ok {| beta := beta; gamma := gamma;
        initial_conditions := initial_conditions;
        results := None |}.

Open Scope py_scope.

Definition sir_equations (y : list A) (t : A) : M (list A) :=
  unpack S, I, R := y ;;
  beta_S <- getattr (@beta A) ;;
  let dSdt := - beta_S * S * I in
  beta_I <- getattr (@beta A) ;;
  gamma_I <- getattr (@gamma A) ;;
  let dIdt := beta_I * S * I - gamma_I * I in
  gamma_R <- getattr (@gamma A) ;;
  let dRdt := gamma_R * I in
  ret [dSdt; dIdt; dRdt].

Close Scope py_scope.

Variable odeint : solver A.

(** The bound method [self.sir_equations] as [odeint] calls it back: it
    keeps what it returns or raises. *)
Definition callback (self : SIRModel A) : list A -> A -> result (list A) :=
  fun y t => fst (fst (sir_equations y t self)).

Definition bound_sir_equations : M (list A -> A -> result (list A)) :=
  fun self => (Ok (callback self), self, []).

(** The call [odeint(func, y0, t)]. *)
Definition call_odeint (func : list A -> A -> result (list A))
    (y0 t : list A) : M (ndarray A) :=
  fun self =>
    let '(r, ws) := odeint func y0 t in (r, self, map Warn ws).

Definition simulate (t : list A) : M unit :=
  func <- bound_sir_equations ;;
  y0 <- getattr (@initial_conditions A) ;;
  r <- call_odeint func y0 t ;;
  setattr_results r.

Definition plot_results (t : list A) : M unit :=
  r <- getattr_results ;;
  unpack S, I, R := rows (T r) ;;
  emit (figure 10 6) ;;
  emit (plot t S "Susceptible") ;;
  emit (plot t I "Infected") ;;
  emit (plot t R "Recovered") ;;
  emit (xlabel "Time") ;;
  emit (ylabel "Proportion of Population") ;;
  emit (title "SIR Model") ;;
  emit legend ;;
  emit show.

Definition plot_phase_portrait : M unit :=
  r <- getattr_results ;;
  unpack S, I, _ := rows (T r) ;;
  emit (figure 10 6) ;;
  emit (plot S I "Phase Portrait") ;;
  emit (xlabel "Susceptible") ;;
  emit (ylabel "Infected") ;;
  emit (title "Phase Portrait of SIR Model") ;;
  emit legend ;;
  emit show.

End Methods.

Arguments __init__ {A} beta gamma initial_conditions.
Arguments M A X : clear implicits.

(** The three parts of what running a method, or a sequence of calls, gives. *)
Definition value_of {V A} (o : V * SIRModel A * list (event A)) : V :=
  fst (fst o).
Definition self_after {V A} (o : V * SIRModel A * list (event A)) : SIRModel A :=
  snd (fst o).
Definition log_of {V A} (o : V * SIRModel A * list (event A)) : list (event A) :=
  snd o.

(** ** Client programs

    A caller applies methods to one instance, one after the other, and may
    catch what a call raises and go on; [run_calls] gives the outcome of every
    call, the instance at the end and everything logged. *)

Inductive call (A : Type) : Type :=
| call_sir_equations (y : list A) (t : A)
| call_simulate (t : list A)
| call_plot_results (t : list A)
| call_plot_phase_portrait.
Arguments call_plot_phase_portrait {A}.

Section Clients.

Context {A : Type} `{PyNumber A}.
Variable odeint : solver A.

(** The value of a call: a list for [sir_equations], [None] for the others. *)
Definition returning {X} (v : X -> option (list A)) (m : M A X)
  : M A (option (list A)) :=
  bind m (fun x => ret (v x)).

Definition run_call (c : call A) : M A (option (list A)) :=
  match c with
  | call_sir_equations y t => returning (@Some _) (sir_equations y t)
  | call_simulate t => returning (fun _ => None) (simulate odeint t)
  | call_plot_results t => returning (fun _ => None) (plot_results t)
  | call_plot_phase_portrait => returning (fun _ => None) plot_phase_portrait
  end.

Fixpoint run_calls (cs : list (call A)) (self : SIRModel A)
  : list (call A * result (option (list A))) * SIRModel A * list (event A) :=
  match cs with
  | [] => ([], self, [])
  | c :: cs' =>
      let '(r, self1, l1) := run_call c self in
      let '(rs, self2, l2) := run_calls cs' self1 in
      ((c, r) :: rs, self2, l1 ++ l2)
  end.

(** Some call to [simulate] in the history returned normally. *)
Definition simulated (history : list (call A * result (option (list A)))) : bool :=
  existsb (fun cr => match cr with
                     | (call_simulate _, Ok _) => true
                     | _ => false
                     end) history.

End Clients.

(** ** Binary64 vocabulary *)

Module Float64.

Open Scope float_scope.

(** Python's [sum]: a left fold of [+] from [0]. *)
Definition sum (xs : list float) : float := fold_left PrimFloat.add xs 0.

(** Neither a NaN nor an infinity, on the specification side. *)
Definition SFfinite (x : spec_float) : bool :=
  match x with
  | S754_zero _ | S754_finite _ _ _ => true
  | S754_nan | S754_infinity _ => false
  end.

Fixpoint increasing_from (x : float) (ts : list float) : bool :=
  match ts with
  | [] => true
  | t :: ts' => (x <? t) && increasing_from t ts'
  end.

(** The rational a finite float stands for ([0] for the others). *)
Definition exact (x : float) : Q :=
  match Prim2SF x with
  | S754_finite s m e =>
      ((if s then Z.neg m else Z.pos m) # 1) * Qpower (2 # 1) e
  | _ => 0%Q
  end.

(** The same, on the specification side. *)
Definition SFexact (x : spec_float) : Q :=
  match x with
  | S754_finite s m e =>
      ((if s then Z.neg m else Z.pos m) # 1) * Qpower (2 # 1) e
  | _ => 0%Q
  end.

(** A grid of time points that strictly increases. *)
Definition strictly_increasing (ts : list float) : bool :=
  match ts with
  | [] => true
  | t :: ts' => increasing_from t ts'
  end.

End Float64.

(** ** The integrator

    [odeint] is SciPy's; the class only calls it.  What the proofs about
    [simulate] use of it is the part of its documented interface below: for a
    right-hand side that returns a derivative of the state's length, and a
    non-empty increasing grid, the result has one row per time point and as
    many columns as the state, and its first row is the initial state. *)

Definition odeint_contract (odeint : solver float) : Prop :=
  forall (func : list float -> float -> result (list float))
         (y0 t : list float),
    t <> [] ->
    Float64.strictly_increasing t = true ->
    (forall y s, length y = length y0 ->
                 exists d, func y s = Ok d /\ length d = length y0) ->
    exists (y : ndarray float) (ws : list warning),
      odeint func y0 t = (Ok y, ws) /\
      nrows y = length t /\
      ncols y = length y0 /\
      hd_error (rows y) = Some y0.

(** Three integrators to run the class against.  [euler_odeint] is the
    explicit Euler method on the grid; [failing_odeint] gives up with an
    exception; [warning_odeint] gives up the way [odeint] does when
    [full_output] is off: it issues an [ODEintWarning] and returns its array
    all the same. *)

Module Integrators.

Open Scope float_scope.

Definition euler_step (h : float) (y d : list float) : list float :=
  map (fun yd => fst yd + h * snd yd) (combine y d).

Fixpoint euler_rows (func : list float -> float -> result (list float))
    (y : list float) (t0 : float) (ts : list float)
  : result (list (list float)) :=
  match ts with
  | [] => Ok []
  | t1 :: ts' =>
      match func y t0 with
      | Raise e => Raise e
      | Ok d =>
          let y1 := euler_step (t1 - t0) y d in
          match euler_rows func y1 t1 ts' with
          | Raise e => Raise e
          | Ok rs => Ok (y1 :: rs)
          end
      end
  end.

Definition euler_odeint : solver float :=
  fun func y0 t =>
    match t with
    | [] => (Ok {| ncols := length y0; rows := [] |}, [])
    | t0 :: ts =>
        match euler_rows func y0 t0 ts with
        | Raise e => (Raise e, [])
        | Ok rs => (Ok {| ncols := length y0; rows := y0 :: rs |}, [])
        end
    end.

Definition failing_odeint : solver float :=
  fun _ _ _ => (Raise (External "odeint"), []).

Definition excess_work : warning :=
  ODEintWarning "Excess work done on this call (perhaps wrong Dfun type).".

Definition warning_odeint : solver float :=
  fun _ y0 t =>
    (Ok {| ncols := length y0; rows := map (fun _ => y0) t |}, [excess_work]).

End Integrators.

(** The solver could not complete the integration: it raised, or it issued an
    [ODEintWarning]. *)
Definition solver_failed {A} (out : result (ndarray A) * list warning) : bool :=
  match fst out with
  | Raise _ => true
  | Ok _ => existsb is_ODEintWarning (snd out)
  end.

(** ** Instances used as examples *)

Module Examples.

Open Scope float_scope.

(** A quarter of the population infected. *)
Definition outbreak : SIRModel float :=
  {| beta := 0.5; gamma := 0.1;
     initial_conditions := [0.75; 0.25; 0]; results := None |}.

(** The susceptible share sits on the threshold [gamma / beta] as the
    machine computes it. *)
Definition at_threshold : SIRModel float :=
  {| beta := 0.14; gamma := 0.11;
     initial_conditions := [0.11 / 0.14; 0.125; 1 - 0.11 / 0.14 - 0.125];
     results := None |}.

(** Large enough for the recovery flux [gamma * I] to overflow once [I]
    is near the largest float. *)
Definition overflowing : SIRModel float :=
  {| beta := 1; gamma := 10;
     initial_conditions := [10; 1e308; 0]; results := None |}.

(** The same rates as [textbook], as fractions. *)
Definition textbook_fraction : SIRModel Qc :=
  {| beta := Q2Qc (3 # 10); gamma := Q2Qc (1 # 10);
     initial_conditions := [Q2Qc (99 # 100); Q2Qc (1 # 100); Q2Qc 0];
     results := None |}.

(** The example of the specification. *)
Definition textbook : SIRModel float :=
  {| beta := 0.3; gamma := 0.1;
     initial_conditions := [0.99; 0.01; 0]; results := None |}.

(** A trajectory cached by an earlier run. *)
Definition cached : ndarray float :=
  {| ncols := 3; rows := [[0.99; 0.01; 0]; [0.98; 0.015; 0.005]] |}.

Definition textbook_simulated : SIRModel float :=
  {| beta := 0.3; gamma := 0.1;
     initial_conditions := [0.99; 0.01; 0]; results := Some cached |}.

End Examples.

(** ** Well-formed arrays, and more of the solver's interface *)

(** Every row has as many entries as the array has columns, as in any
    two-dimensional [ndarray]. *)
Definition rectangular {A} (a : ndarray A) : Prop :=
  Forall (fun row => length row = ncols a) (rows a).

(** For a right-hand side that returns a derivative of the state's length,
    what [odeint] returns is a two-dimensional array. *)
Definition odeint_rectangular (odeint : solver float) : Prop :=
  forall (func : list float -> float -> result (list float))
         (y0 t : list float),
    (forall y s, length y = length y0 ->
                 exists d, func y s = Ok d /\ length d = length y0) ->
    forall (y : ndarray float) (ws : list warning),
      odeint func y0 t = (Ok y, ws) -> rectangular y.

(** On a strictly increasing grid of at least two time points, [odeint]
    evaluates the right-hand side at the initial state before it steps, and
    what that call raises goes through.  (On a grid that is not monotonic
    [odeint] raises on its own account, before any such call.) *)
Definition odeint_evaluates_initial_state (odeint : solver float) : Prop :=
  forall (func : list float -> float -> result (list float))
         (y0 : list float) (t0 t1 : float) (ts : list float) (e : exn),
    Float64.strictly_increasing (t0 :: t1 :: ts) = true ->
    func y0 t0 = Raise e -> fst (odeint func y0 (t0 :: t1 :: ts)) = Raise e.

Module MoreExamples.

Open Scope float_scope.

(** A model built with two initial conditions instead of three. *)
Definition two_compartments : SIRModel float :=
  {| beta := 0.3; gamma := 0.1;
     initial_conditions := [0.99; 0.01]; results := None |}.

(** An instance whose cache has two columns. *)
Definition narrow_cache : SIRModel float :=
  {| beta := 0.3; gamma := 0.1;
     initial_conditions := [0.99; 0.01; 0];
     results := Some {| ncols := 2; rows := [[0.99; 0.01]; [0.98; 0.02]] |} |}.

(** Rates without transmission, and without recovery. *)
Definition no_transmission : SIRModel float :=
  {| beta := 0; gamma := 0.1;
     initial_conditions := [0.99; 0.01; 0]; results := None |}.

Definition no_recovery : SIRModel float :=
  {| beta := 0.3; gamma := 0;
     initial_conditions := [0.99; 0.01; 0]; results := None |}.

End MoreExamples.

(** Zeros and NaNs, on the specification side. *)
Module Float64Classes.

Definition SFis_zero (x : spec_float) : bool :=
  match x with S754_zero _ => true | _ => false end.

Definition SFis_nan (x : spec_float) : bool :=
  match x with S754_nan => true | _ => false end.

End Float64Classes.

(** ** Rounding to nearest, on integers

    Python's [*] on floats rounds the exact product to the nearest binary64
    number, ties to even.  [SpecFloat] computes that by shifting the integer
    mantissa right, one bit at a time, while it records what falls off.  The
    definitions below say what the shifting comes to, so that the order of
    two rounded products can be read off the order of the exact ones. *)

Module Float64Rounding.

Import SpecFloat.
Open Scope Z_scope.

(** What [k] shifts of [m0] leave: the quotient by [2^k], with the round and
    sticky bits telling where the remainder is against the half. *)
Definition shifted_out (m0 k : Z) (mrs : shr_record) : Prop :=
  0 <= shr_m mrs /\
  exists rem,
    m0 = shr_m mrs * 2 ^ k + rem /\ 0 <= rem < 2 ^ k /\
    match shr_r mrs, shr_s mrs with
    | false, false => rem = 0
    | false, true => 0 < 2 * rem < 2 ^ k
    | true, false => 2 * rem = 2 ^ k
    | true, true => 2 ^ k < 2 * rem
    end.

(** [m / 2^k] rounded to the nearest integer, ties to even. *)
Definition rne (m k : Z) : Z :=
  let q := m / 2 ^ k in
  let rem := m mod 2 ^ k in
  if 2 * rem <? 2 ^ k then q
  else if 2 * rem =? 2 ^ k then (if Z.even q then q else q + 1)
  else q + 1.

(** How many bits the mantissa [m] at exponent [e] loses to fit the format. *)
Definition shift (m e : Z) : Z := fexp prec emax (Zdigits2 m + e) - e.

(** The float for the rounded mantissa [mr] at exponent [E]: [2^53] is
    renormalised to [2^52] one exponent up, and an exponent above [971]
    overflows to an infinity. *)
Definition rounded (s : bool) (mr E : Z) : spec_float :=
  match mr with
  | Z0 => S754_zero s
  | Zpos p =>
      if mr <? 9007199254740992
      then (if E <=? 971 then S754_finite s p E else S754_infinity s)
      else (if E + 1 <=? 971
            then S754_finite s 4503599627370496 (E + 1)
            else S754_infinity s)
  | Zneg _ => S754_nan
  end.

(** A rounded mantissa has at most 53 bits, or is [2^53]; above the smallest
    exponent it has its leading bit. *)
Definition canon (mr E : Z) : Prop :=
  0 <= mr <= 9007199254740992
  /\ -1074 <= E
  /\ (-1074 < E -> 4503599627370496 <= mr).

(** [m1 * 2^e1 <= m2 * 2^e2], on integers. *)
Definition scaled_le (m1 e1 m2 e2 : Z) : Prop :=
  m1 * 2 ^ (e1 - Z.min e1 e2) <= m2 * 2 ^ (e2 - Z.min e1 e2).

End Float64Rounding.

(** * Properties *)

(** ** Binary64 facts the proofs need *)

Module Float64Facts.

Open Scope float_scope.

(** Rounding is symmetric: the sign goes through it unchanged. *)
Lemma SFopp_binary_round_aux (s : bool) (m e : Z) (l : SpecFloat.location) :
  SFopp (SpecFloat.binary_round_aux prec emax s m e l)
  = SpecFloat.binary_round_aux prec emax (negb s) m e l.
Proof.
  unfold SpecFloat.binary_round_aux.
  destruct (SpecFloat.shr_fexp prec emax m e l) as [mrs e'].
  destruct (SpecFloat.shr_fexp prec emax _ e' SpecFloat.loc_Exact) as [mrs' e''].
  destruct (SpecFloat.shr_m mrs'); try reflexivity.
  destruct (Z.leb e'' _); reflexivity.
Qed.

Lemma SFmul_opp_l (x y : spec_float) :
  SF64mul (SFopp x) y = SFopp (SF64mul x y).
Proof.
  unfold SF64mul.
  destruct x as [sx|sx| |sx mx ex], y as [sy|sy| |sy my ey]; cbn [SFmul SFopp];
    rewrite ?SFopp_binary_round_aux, ?negb_xorb_l; reflexivity.
Qed.

(** [(-x) * y] and [-(x * y)] are the same float. *)
Lemma opp_mul_l (x y : float) : (- x) * y = - (x * y).
Proof.
  apply Prim2SF_inj.
  now rewrite mul_spec, !opp_spec, mul_spec, SFmul_opp_l.
Qed.

Lemma opp_involutive (x : float) : - (- x) = x.
Proof.
  apply Prim2SF_inj. rewrite !opp_spec.
  destruct (Prim2SF x); cbn; rewrite ?negb_involutive; reflexivity.
Qed.

(** The infection flux as the source writes it, [-beta * S * I], is the
    opposite of [beta * S * I]. *)
Lemma opp_flux (b s i : float) : - b * s * i = - (b * s * i).
Proof. now rewrite !opp_mul_l. Qed.

Lemma SFopp_binary_round (s : bool) (m : positive) (e : Z) :
  SFopp (SpecFloat.binary_round prec emax s m e)
  = SpecFloat.binary_round prec emax (negb s) m e.
Proof.
  unfold SpecFloat.binary_round.
  destruct (SpecFloat.shl_align m e _) as [mz ez].
  apply SFopp_binary_round_aux.
Qed.

Lemma SFopp_binary_normalize (m e : Z) :
  m <> 0%Z ->
  SFopp (SpecFloat.binary_normalize prec emax m e false)
  = SpecFloat.binary_normalize prec emax (- m) e false.
Proof.
  destruct m as [|p|p]; intros Hm; [now elim Hm| |];
    cbn [SpecFloat.binary_normalize Z.opp]; apply SFopp_binary_round.
Qed.

(** [-a + b] is the opposite of [a - b], or both are zeros (whose signs
    need not be opposite). *)
Lemma SFadd_opp_sub (a b : spec_float) :
  Float64.SFfinite (SF64sub a b) = true ->
  SF64add (SFopp a) b = SFopp (SF64sub a b)
  \/ exists s s',
      SF64add (SFopp a) b = S754_zero s /\ SF64sub a b = S754_zero s'.
Proof.
  unfold SF64sub, SF64add.
  destruct a as [sa|sa| |sa ma ea], b as [sb|sb| |sb mb eb];
    cbn [SFsub SFadd SFopp Float64.SFfinite]; try discriminate.
  all: try (destruct sa, sb; discriminate).
  all: try (destruct sa; discriminate).
  all: try (destruct sb; discriminate).
  - intros _. right. destruct sa, sb; cbn [negb]; eauto.
  - intros _. left. now rewrite negb_involutive.
  - intros _. now left.
  - set (ez := Z.min ea eb).
    set (A := Z.pos (fst (SpecFloat.shl_align ma ea ez))).
    set (B := Z.pos (fst (SpecFloat.shl_align mb eb ez))).
    intros _.
    replace (SpecFloat.cond_Zopp (negb sa) A + SpecFloat.cond_Zopp sb B)%Z
      with (- (SpecFloat.cond_Zopp sa A - SpecFloat.cond_Zopp sb B))%Z
      by (destruct sa, sb; cbn [SpecFloat.cond_Zopp negb]; lia).
    destruct (Z.eq_dec (SpecFloat.cond_Zopp sa A - SpecFloat.cond_Zopp sb B) 0)
      as [E|E].
    + right. rewrite E. cbn. eauto.
    + left. now rewrite SFopp_binary_normalize.
Qed.

Lemma SFadd_opp_diag (d : spec_float) :
  Float64.SFfinite d = true -> SF64add (SFopp d) d = S754_zero false.
Proof.
  unfold SF64add.
  destruct d as [s|s| |s m e]; cbn [Float64.SFfinite SFopp SFadd];
    try discriminate; intros _.
  - now destruct s.
  - set (M := Z.pos (fst (SpecFloat.shl_align m e (Z.min e e)))).
    replace (SpecFloat.cond_Zopp (negb s) M + SpecFloat.cond_Zopp s M)%Z
      with 0%Z by (destruct s; cbn [SpecFloat.cond_Zopp negb]; lia).
    reflexivity.
Qed.

Lemma is_finite_spec (x : float) :
  is_finite x = true -> Float64.SFfinite (Prim2SF x) = true.
Proof.
  unfold is_finite, is_nan, is_infinity.
  rewrite !FloatAxioms.eqb_spec, abs_spec.
  change (Prim2SF infinity) with (S754_infinity false).
  destruct (Prim2SF x) as [s|s| |s m e]; cbn;
    try reflexivity; try discriminate.
  now destruct s.
Qed.

Lemma is_nan_spec (x : float) :
  is_nan x = Float64Classes.SFis_nan (Prim2SF x).
Proof.
  unfold is_nan. rewrite FloatAxioms.eqb_spec.
  destruct (Prim2SF x) as [s|s| |s m e]; try reflexivity; try now destruct s.
  unfold SFeqb, SFcompare.
  destruct s; rewrite Z.compare_refl, Pos.compare_cont_refl; reflexivity.
Qed.

(** However [a - b] was rounded, adding it to [-a + b] gives a zero. *)
Lemma add_opp_sub_cancels (a b : float) :
  is_finite (a - b) = true -> ((- a + b) + (a - b) =? 0) = true.
Proof.
  intros Hfin. apply is_finite_spec in Hfin.
  rewrite FloatAxioms.eqb_spec, add_spec, add_spec, opp_spec.
  rewrite sub_spec in *.
  change (Prim2SF 0) with (S754_zero false).
  destruct (SFadd_opp_sub _ _ Hfin) as [E|(s & s' & E1 & E2)].
  - rewrite E, SFadd_opp_diag by assumption. reflexivity.
  - rewrite E1, E2. now destruct s, s'.
Qed.

(** *** The sign of a difference *)

Section SignOfDifference.

Open Scope Z_scope.

Lemma digits2_pos_bounds (m : positive) :
  2 ^ (Z.pos (SpecFloat.digits2_pos m) - 1) <= Z.pos m
  < 2 ^ Z.pos (SpecFloat.digits2_pos m).
Proof.
  induction m as [m IH|m IH|]; cbn [SpecFloat.digits2_pos]; [| |cbn; lia].
  all: rewrite Pos2Z.inj_succ, Z.pow_succ_r by lia;
    replace (Z.succ (Z.pos (SpecFloat.digits2_pos m)) - 1)
      with (Z.succ (Z.pos (SpecFloat.digits2_pos m) - 1)) by lia;
    rewrite Z.pow_succ_r by lia; lia.
Qed.

Lemma iter_xO_value (m d : positive) :
  Z.pos (Pos.iter xO m d) = Z.pos m * 2 ^ Z.pos d.
Proof.
  induction d as [|d IH] using Pos.peano_ind.
  - cbn [Pos.iter]. rewrite Z.pow_1_r. lia.
  - rewrite Pos.iter_succ, Pos2Z.inj_succ, Z.pow_succ_r by lia.
    rewrite Pos2Z.inj_xO, IH. lia.
Qed.

Lemma shl_align_value (m : positive) (e e' : Z) :
  e' <= e ->
  Z.pos (fst (SpecFloat.shl_align m e e')) = Z.pos m * 2 ^ (e - e').
Proof.
  intros Hle. unfold SpecFloat.shl_align.
  destruct (e' - e) as [|d|d] eqn:E; cbn [fst].
  - replace (e - e') with 0 by lia. cbn. lia.
  - lia.
  - rewrite iter_xO_value. f_equal. f_equal. lia.
Qed.

(** Of two canonical mantissas, the one with the smaller exponent stands for
    the smaller number. *)
Lemma canonical_lt (ma mb : positive) (ea eb : Z) :
  SpecFloat.canonical_mantissa prec emax ma ea = true ->
  SpecFloat.canonical_mantissa prec emax mb eb = true ->
  ea < eb ->
  Z.pos ma < Z.pos mb * 2 ^ (eb - ea).
Proof.
  unfold SpecFloat.canonical_mantissa, SpecFloat.fexp, SpecFloat.emin.
  intros Ha Hb Hlt. apply Z.eqb_eq in Ha, Hb.
  change prec with 53 in *. change emax with 1024 in *.
  pose proof (digits2_pos_bounds ma) as [_ Hma].
  pose proof (digits2_pos_bounds mb) as [Hmb _].
  assert (Hda : Z.pos (SpecFloat.digits2_pos ma) <= 53) by lia.
  assert (Hdb : Z.pos (SpecFloat.digits2_pos mb) = 53) by lia.
  rewrite Hdb in Hmb.
  assert (H53 : 2 ^ Z.pos (SpecFloat.digits2_pos ma) <= 2 ^ 53)
    by (apply Z.pow_le_mono_r; lia).
  assert (H2 : 2 ^ 1 <= 2 ^ (eb - ea)) by (apply Z.pow_le_mono_r; lia).
  change (2 ^ (53 - 1)) with 4503599627370496 in Hmb.
  change (2 ^ 53) with 9007199254740992 in H53.
  change (2 ^ 1) with 2 in H2.
  nia.
Qed.

Lemma aligned_difference_nonpos (sa sb : bool) (ma mb : positive) (ea eb : Z) :
  SpecFloat.bounded prec emax ma ea = true ->
  SpecFloat.bounded prec emax mb eb = true ->
  SFleb (S754_finite sa ma ea) (S754_finite sb mb eb) = true ->
  SpecFloat.cond_Zopp sa (Z.pos (fst (SpecFloat.shl_align ma ea (Z.min ea eb))))
  - SpecFloat.cond_Zopp sb (Z.pos (fst (SpecFloat.shl_align mb eb (Z.min ea eb))))
  <= 0.
Proof.
  unfold SpecFloat.bounded. intros Ha Hb.
  apply andb_prop in Ha, Hb. destruct Ha as [Ha _], Hb as [Hb _].
  rewrite !shl_align_value by lia.
  unfold SFleb, SFcompare.
  destruct sa, sb; cbn [SpecFloat.cond_Zopp]; try discriminate.
  - destruct (Z.compare_spec ea eb) as [E|E|E]; try discriminate.
    + subst eb. rewrite Z.min_id, Z.sub_diag, Z.pow_0_r, !Z.mul_1_r.
      fold (Pos.compare ma mb).
      destruct (Pos.compare_spec ma mb); try discriminate; intros _; lia.
    + intros _. rewrite Z.min_r by lia.
      rewrite Z.sub_diag, Z.pow_0_r, Z.mul_1_r.
      pose proof (@canonical_lt mb ma eb ea Hb Ha E). lia.
  - intros _.
    assert (0 < 2 ^ (ea - Z.min ea eb)) by (apply Z.pow_pos_nonneg; lia).
    assert (0 < 2 ^ (eb - Z.min ea eb)) by (apply Z.pow_pos_nonneg; lia).
    nia.
  - destruct (Z.compare_spec ea eb) as [E|E|E]; try discriminate.
    + subst eb. rewrite Z.min_id, Z.sub_diag, Z.pow_0_r, !Z.mul_1_r.
      fold (Pos.compare ma mb).
      destruct (Pos.compare_spec ma mb); try discriminate; intros _; lia.
    + intros _. rewrite Z.min_l by lia.
      rewrite Z.sub_diag, Z.pow_0_r, Z.mul_1_r.
      pose proof (@canonical_lt ma mb ea eb Ha Hb E). lia.
Qed.

End SignOfDifference.

End Float64Facts.

(** ** The order of rounded products

    Rounding to nearest is monotone: of two positive numbers, the smaller
    rounds to the smaller float.  It is proved on [SpecFloat]'s integer
    rounding and brought to [*] and [-] on floats. *)

Module Float64Order.

Import SpecFloat Float64Facts Float64Classes Float64Rounding.
Open Scope Z_scope.

(** Shifting right keeps the quotient and where the remainder lies. *)
Lemma shifted_out_0 (m0 : Z) :
  0 <= m0 -> shifted_out m0 0 {| shr_m := m0; shr_r := false; shr_s := false |}.
Proof.
  intros H. split; [exact H|]. exists 0. cbn. lia.
Qed.

Lemma shifted_out_shr_1 (m0 k : Z) (mrs : shr_record) :
  0 <= k -> shifted_out m0 k mrs -> shifted_out m0 (k + 1) (shr_1 mrs).
Proof.
  intros Hk [Hm (rem & Hm0 & Hrem & Hloc)]. unfold shifted_out.
  assert (E : 2 ^ (k + 1) = 2 * 2 ^ k)
    by (rewrite Z.pow_add_r, Z.pow_1_r by lia; lia).
  rewrite E. clear E.
  assert (Hpow : 0 < 2 ^ k) by (apply Z.pow_pos_nonneg; lia).
  destruct mrs as [m r s]. cbn [shr_m shr_r shr_s] in *.
  destruct m as [|[p|p|]|p]; try lia; cbn [shr_1 shr_m shr_r shr_s orb].
  - split; [lia|]. exists rem. destruct r, s; cbn [orb]; lia.
  - split; [lia|]. exists (2 ^ k + rem).
    rewrite Pos2Z.inj_xI in Hm0. destruct r, s; cbn [orb]; lia.
  - split; [lia|]. exists rem.
    rewrite Pos2Z.inj_xO in Hm0. destruct r, s; cbn [orb]; lia.
  - split; [lia|]. exists (2 ^ k + rem). destruct r, s; cbn [orb]; lia.
Qed.

Lemma shifted_out_iter_pos (m0 : Z) (p : positive) :
  forall (k : Z) (mrs : shr_record),
    0 <= k -> shifted_out m0 k mrs ->
    shifted_out m0 (k + Z.pos p) (iter_pos shr_1 p mrs).
Proof.
  induction p as [p IH|p IH|]; intros k mrs Hk H; cbn [iter_pos].
  - replace (k + Z.pos p~1) with (k + 1 + Z.pos p + Z.pos p) by lia.
    apply IH; [lia|]. apply IH; [lia|]. now apply shifted_out_shr_1.
  - replace (k + Z.pos p~0) with (k + Z.pos p + Z.pos p) by lia.
    apply IH; [lia|]. now apply IH.
  - now apply shifted_out_shr_1.
Qed.

(** What [SpecFloat] rounds the shifted mantissa to. *)
Lemma rne_spec (m0 k : Z) (mrs : shr_record) :
  0 <= k -> shifted_out m0 k mrs ->
  round_nearest_even (shr_m mrs) (loc_of_shr_record mrs) = rne m0 k.
Proof.
  intros Hk [Hm (rem & Hm0 & Hrem & Hloc)].
  assert (Hpow : 0 < 2 ^ k) by (apply Z.pow_pos_nonneg; lia).
  assert (Hq : m0 / 2 ^ k = shr_m mrs)
    by (symmetry; apply (Z.div_unique_pos m0 (2 ^ k) (shr_m mrs) rem); lia).
  assert (Hr : m0 mod 2 ^ k = rem)
    by (symmetry; apply (Z.mod_unique_pos m0 (2 ^ k) (shr_m mrs) rem); lia).
  unfold rne. rewrite Hq, Hr.
  destruct mrs as [m r s]. cbn [shr_m shr_r shr_s loc_of_shr_record] in *.
  destruct r, s; cbn [round_nearest_even].
  - destruct (Z.ltb_spec (2 * rem) (2 ^ k)); [lia|].
    destruct (Z.eqb_spec (2 * rem) (2 ^ k)); [lia|reflexivity].
  - destruct (Z.ltb_spec (2 * rem) (2 ^ k)); [lia|].
    destruct (Z.eqb_spec (2 * rem) (2 ^ k)); [reflexivity|lia].
  - destruct (Z.ltb_spec (2 * rem) (2 ^ k)); [reflexivity|lia].
  - destruct (Z.ltb_spec (2 * rem) (2 ^ k)); [reflexivity|lia].
Qed.

(** [rne] rounds down or up by one, and up only from the half on. *)
Lemma rne_bounds (m k : Z) :
  0 <= m -> 0 <= k ->
  m / 2 ^ k <= rne m k <= m / 2 ^ k + 1
  /\ (rne m k = m / 2 ^ k + 1 -> 2 ^ k <= 2 * (m mod 2 ^ k)).
Proof.
  intros Hm Hk. unfold rne.
  destruct (Z.ltb_spec (2 * (m mod 2 ^ k)) (2 ^ k)); [lia|].
  destruct (Z.eqb_spec (2 * (m mod 2 ^ k)) (2 ^ k));
    [destruct (Z.even _)|]; lia.
Qed.

(** Rounding to nearest-even is monotone, across different shifts. *)
Lemma rne_mono (m1 k1 m2 k2 : Z) :
  0 <= m1 -> 0 <= m2 -> 0 <= k1 -> 0 <= k2 ->
  m1 * 2 ^ k2 <= m2 * 2 ^ k1 ->
  rne m1 k1 <= rne m2 k2.
Proof.
  intros Hm1 Hm2 Hk1 Hk2 Hle.
  assert (HA : 0 < 2 ^ k1) by (apply Z.pow_pos_nonneg; lia).
  assert (HB : 0 < 2 ^ k2) by (apply Z.pow_pos_nonneg; lia).
  pose proof (Z.div_mod m1 (2 ^ k1) ltac:(lia)) as D1.
  pose proof (Z.div_mod m2 (2 ^ k2) ltac:(lia)) as D2.
  pose proof (Z.mod_pos_bound m1 (2 ^ k1) HA) as R1.
  pose proof (Z.mod_pos_bound m2 (2 ^ k2) HB) as R2.
  unfold rne.
  set (A := 2 ^ k1) in *. set (B := 2 ^ k2) in *.
  set (q1 := m1 / A) in *. set (q2 := m2 / B) in *.
  set (r1 := m1 mod A) in *. set (r2 := m2 mod B) in *.
  assert (Hq : q1 <= q2).
  { destruct (Z.le_gt_cases q1 q2) as [L|G]; [exact L|exfalso].
    assert (H1 : A * B * (q2 + 1) <= A * B * q1)
      by (apply Z.mul_le_mono_nonneg_l; nia).
    assert (H2 : r2 * A < B * A) by (apply Z.mul_lt_mono_pos_r; lia).
    assert (H3 : 0 <= r1 * B) by nia.
    subst q1 q2 r1 r2. rewrite D1, D2 in Hle. lia. }
  destruct (Z.eq_dec q1 q2) as [E|NE].
  - rewrite <- E in *.
    assert (Hr : r1 * B <= r2 * A) by nia.
    destruct (Z.ltb_spec (2 * r1) A), (Z.ltb_spec (2 * r2) B); try lia.
    + destruct (Z.eqb_spec (2 * r2) B); [destruct (Z.even q1)|]; lia.
    + exfalso. nia.
    + destruct (Z.eqb_spec (2 * r1) A), (Z.eqb_spec (2 * r2) B); try lia.
      * destruct (Z.even q1); lia.
      * exfalso. nia.
  - assert (q1 + 1 <= q2) by lia.
    destruct (Z.ltb_spec (2 * r1) A), (Z.ltb_spec (2 * r2) B);
      repeat match goal with
             | |- context [Z.eqb ?a ?b] => destruct (Z.eqb a b)
             | |- context [Z.even ?a] => destruct (Z.even a)
             end; lia.
Qed.

Lemma fexp_value (x : Z) : fexp prec emax x = Z.max (x - 53) (-1074).
Proof. reflexivity. Qed.

Lemma shr_fexp_exact (m e : Z) :
  0 <= m -> 0 <= shift m e ->
  exists mrs,
    shr_fexp prec emax m e loc_Exact = (mrs, e + shift m e)
    /\ shifted_out m (shift m e) mrs.
Proof.
  intros Hm Hn. unfold shr_fexp. fold (shift m e).
  cbn [shr_record_of_loc]. unfold shr.
  destruct (shift m e) as [|p|p] eqn:E; [| |lia].
  - eexists. split; [f_equal; lia|]. now apply shifted_out_0.
  - eexists. split; [reflexivity|].
    apply (@shifted_out_iter_pos m p 0 _ ltac:(lia)). now apply shifted_out_0.
Qed.

Lemma shr_fexp_canon (mr E : Z) :
  canon mr E ->
  shr_m (fst (shr_fexp prec emax mr E loc_Exact))
  = (if mr <? 9007199254740992 then mr else 4503599627370496)
  /\ snd (shr_fexp prec emax mr E loc_Exact)
     = (if mr <? 9007199254740992 then E else E + 1).
Proof.
  intros (Hmr & HE & Hlow). unfold shr_fexp. rewrite fexp_value.
  cbn [shr_record_of_loc].
  destruct (Z.ltb_spec mr 9007199254740992) as [Hlt|Hge].
  - assert (Hd : Zdigits2 mr <= 53).
    { destruct mr as [|p|p]; cbn [Zdigits2]; [lia| |lia].
      pose proof (digits2_pos_bounds p) as [Hp _].
      destruct (Z.le_gt_cases (Z.pos (digits2_pos p)) 53) as [L|G]; [exact L|].
      assert (2 ^ 53 <= 2 ^ (Z.pos (digits2_pos p) - 1))
        by (apply Z.pow_le_mono_r; lia).
      change (2 ^ 53) with 9007199254740992 in *. lia. }
    unfold shr.
    destruct (Z.max (Zdigits2 mr + E - 53) (-1074) - E) as [|p|p] eqn:En;
      [split; reflexivity | lia | split; reflexivity].
  - assert (mr = 9007199254740992) by lia. subst mr.
    change (Zdigits2 9007199254740992) with 54.
    replace (Z.max (54 + E - 53) (-1074) - E) with 1 by lia.
    split; reflexivity.
Qed.

Lemma rounded_spec (s : bool) (mr E : Z) :
  canon mr E ->
  (let '(mrs, e) := shr_fexp prec emax mr E loc_Exact in
   match shr_m mrs with
   | Z0 => S754_zero s
   | Zpos m => if e <=? emax - prec then S754_finite s m e else S754_infinity s
   | Zneg _ => S754_nan
   end) = rounded s mr E.
Proof.
  intros Hc. pose proof (@shr_fexp_canon mr E Hc) as [Hm He].
  destruct (shr_fexp prec emax mr E loc_Exact) as [mrs e].
  cbn [fst snd] in Hm, He. rewrite Hm, He.
  change (emax - prec) with 971.
  destruct Hc as (Hmr & _). unfold rounded.
  destruct (Z.ltb_spec mr 9007199254740992) as [Hlt|Hge].
  - destruct mr; [reflexivity|reflexivity|lia].
  - destruct mr; [lia|reflexivity|lia].
Qed.

Lemma pow2_div_lt (m d n k : Z) :
  0 <= m -> 0 <= n -> 0 <= k -> m < 2 ^ d -> d <= n + k -> m / 2 ^ n < 2 ^ k.
Proof.
  intros Hm Hn Hk Hlt Hd.
  assert (0 < 2 ^ n) by (apply Z.pow_pos_nonneg; lia).
  apply Z.div_lt_upper_bound; [lia|].
  rewrite <- Z.pow_add_r by lia.
  assert (2 ^ d <= 2 ^ (n + k)) by (apply Z.pow_le_mono_r; lia). lia.
Qed.

Lemma pow2_div_ge (m d n k : Z) :
  0 <= n -> 0 <= k -> 2 ^ d <= m -> n + k <= d -> 2 ^ k <= m / 2 ^ n.
Proof.
  intros Hn Hk Hle Hd.
  assert (0 < 2 ^ n) by (apply Z.pow_pos_nonneg; lia).
  apply Z.div_le_lower_bound; [lia|].
  rewrite <- Z.pow_add_r by lia.
  assert (2 ^ (n + k) <= 2 ^ d) by (apply Z.pow_le_mono_r; lia). lia.
Qed.

Lemma rne_canon (m : positive) (e : Z) :
  0 <= shift (Z.pos m) e ->
  canon (rne (Z.pos m) (shift (Z.pos m) e)) (e + shift (Z.pos m) e).
Proof.
  intros Hn. pose proof (digits2_pos_bounds m) as [Hlo Hhi].
  pose proof (@rne_bounds (Z.pos m) (shift (Z.pos m) e) ltac:(lia) Hn)
    as [[Hq1 Hq2] _].
  unfold shift in *. rewrite fexp_value in *. cbn [Zdigits2] in *.
  set (d := Z.pos (digits2_pos m)) in *.
  set (n := Z.max (d + e - 53) (-1074) - e) in *.
  assert (Hd : 0 < d) by (subst d; lia).
  assert (0 < 2 ^ n) by (apply Z.pow_pos_nonneg; lia).
  assert (Hq0 : 0 <= Z.pos m / 2 ^ n) by (apply Z.div_pos; lia).
  assert (Hup : Z.pos m / 2 ^ n < 2 ^ 53)
    by (apply (@pow2_div_lt (Z.pos m) d n 53); lia).
  change (2 ^ 53) with 9007199254740992 in Hup.
  repeat split; try lia.
  intros HE.
  assert (Hlow : 2 ^ 52 <= Z.pos m / 2 ^ n)
    by (apply (@pow2_div_ge (Z.pos m) (d - 1) n 52); lia).
  change (2 ^ 52) with 4503599627370496 in Hlow. lia.
Qed.

(** Rounding a positive integer mantissa that has at least as many digits as
    the format keeps: the result is the nearest-even quotient at the format's
    exponent. *)
Lemma round_aux_rounded (s : bool) (m : positive) (e : Z) :
  0 <= shift (Z.pos m) e ->
  binary_round_aux prec emax s (Z.pos m) e loc_Exact
  = rounded s (rne (Z.pos m) (shift (Z.pos m) e)) (e + shift (Z.pos m) e).
Proof.
  intros Hn. unfold binary_round_aux.
  destruct (@shr_fexp_exact (Z.pos m) e ltac:(lia) Hn) as (mrs & E & Hs).
  rewrite E. rewrite (@rne_spec (Z.pos m) _ mrs Hn Hs).
  apply rounded_spec. now apply rne_canon.
Qed.

(** The order of two rounded positive numbers, read off exponent and
    mantissa. *)
Lemma rounded_leb (mr1 E1 mr2 E2 : Z) :
  canon mr1 E1 -> canon mr2 E2 ->
  E1 < E2 \/ (E1 = E2 /\ mr1 <= mr2) ->
  SFleb (rounded false mr1 E1) (rounded false mr2 E2) = true.
Proof.
  intros (H1 & HE1 & L1) (H2 & HE2 & L2) Hor. unfold rounded.
  destruct mr1 as [|p1|p1], mr2 as [|p2|p2]; try lia.
  - reflexivity.
  - destruct (Z.pos p2 <? _), (E2 <=? 971), (E2 + 1 <=? 971); reflexivity.
  - destruct (Z.ltb_spec (Z.pos p1) 9007199254740992),
      (Z.ltb_spec (Z.pos p2) 9007199254740992),
      (Z.leb_spec E1 971), (Z.leb_spec E2 971),
      (Z.leb_spec (E1 + 1) 971), (Z.leb_spec (E2 + 1) 971);
      try lia; unfold SFleb, SFcompare.
    all: try match goal with
             | |- context [Z.compare ?a ?b] =>
                 destruct (Z.compare_spec a b); try lia
             end.
    all: try match goal with |- true = true => reflexivity end.
    all: match goal with
         | |- context [PosDef.Pos.compare_cont Eq ?a ?b] =>
             pose proof (Pos.compare_spec a b) as Hc; unfold Pos.compare in Hc
         end.
    all: destruct Hc as [Hc|Hc|Hc]; try reflexivity.
    all: apply Pos2Z.pos_lt_pos in Hc; lia.
Qed.

(** The number of binary digits is monotone in the value. *)
Lemma scaled_le_magnitude (m1 m2 : positive) (e1 e2 : Z) :
  scaled_le (Z.pos m1) e1 (Z.pos m2) e2 ->
  Z.pos (digits2_pos m1) + e1 <= Z.pos (digits2_pos m2) + e2.
Proof.
  unfold scaled_le. intros Hle.
  pose proof (digits2_pos_bounds m1) as [Hlo _].
  pose proof (digits2_pos_bounds m2) as [_ Hhi].
  set (d1 := Z.pos (digits2_pos m1)) in *.
  set (d2 := Z.pos (digits2_pos m2)) in *.
  set (c := Z.min e1 e2) in *.
  assert (Hd1 : 0 < d1) by (subst d1; lia).
  assert (Hd2 : 0 < d2) by (subst d2; lia).
  assert (P1 : 0 < 2 ^ (e1 - c)) by (apply Z.pow_pos_nonneg; lia).
  assert (P2 : 0 < 2 ^ (e2 - c)) by (apply Z.pow_pos_nonneg; lia).
  assert (A : 2 ^ (d1 - 1 + (e1 - c)) <= Z.pos m1 * 2 ^ (e1 - c))
    by (rewrite Z.pow_add_r by lia; apply Z.mul_le_mono_nonneg_r; lia).
  assert (B : Z.pos m2 * 2 ^ (e2 - c) < 2 ^ (d2 + (e2 - c)))
    by (rewrite Z.pow_add_r by lia; apply Z.mul_lt_mono_pos_r; lia).
  assert (C : 2 ^ (d1 - 1 + (e1 - c)) < 2 ^ (d2 + (e2 - c))) by lia.
  apply Z.pow_lt_mono_r_iff in C; lia.
Qed.

(** Rounding is monotone on positive numbers. *)
Lemma round_aux_monotone (m1 m2 : positive) (e1 e2 : Z) :
  0 <= shift (Z.pos m1) e1 -> 0 <= shift (Z.pos m2) e2 ->
  scaled_le (Z.pos m1) e1 (Z.pos m2) e2 ->
  SFleb (binary_round_aux prec emax false (Z.pos m1) e1 loc_Exact)
        (binary_round_aux prec emax false (Z.pos m2) e2 loc_Exact) = true.
Proof.
  intros Hn1 Hn2 Hle.
  rewrite (@round_aux_rounded false m1 e1 Hn1).
  rewrite (@round_aux_rounded false m2 e2 Hn2).
  pose proof (@rne_canon m1 e1 Hn1) as C1.
  pose proof (@rne_canon m2 e2 Hn2) as C2.
  apply rounded_leb; [exact C1|exact C2|].
  pose proof (@scaled_le_magnitude m1 m2 e1 e2 Hle) as Hmag.
  unfold shift in *. rewrite !fexp_value in *. cbn [Zdigits2] in *.
  set (d1 := Z.pos (digits2_pos m1)) in *.
  set (d2 := Z.pos (digits2_pos m2)) in *.
  set (E1 := Z.max (d1 + e1 - 53) (-1074)) in *.
  set (E2 := Z.max (d2 + e2 - 53) (-1074)) in *.
  assert (HE : E1 <= E2) by lia.
  replace (e1 + (E1 - e1)) with E1 by lia.
  replace (e2 + (E2 - e2)) with E2 by lia.
  destruct (Z.eq_dec E1 E2) as [E|NE]; [right|left; lia].
  split; [exact E|].
  apply rne_mono; try lia.
  unfold scaled_le in Hle. rewrite <- E.
  set (c := Z.min e1 e2) in *.
  set (k := E1 - Z.max e1 e2).
  assert (Hk : 0 <= k) by lia.
  replace (E1 - e2) with ((e1 - c) + k) by lia.
  replace (E1 - e1) with ((e2 - c) + k) by lia.
  rewrite !Z.pow_add_r by lia.
  assert (0 < 2 ^ k) by (apply Z.pow_pos_nonneg; lia).
  rewrite !Z.mul_assoc. apply Z.mul_le_mono_nonneg_r; lia.
Qed.

Lemma digits2_pos_mul (mx my : positive) :
  Z.pos (digits2_pos mx) + Z.pos (digits2_pos my) - 1
  <= Z.pos (digits2_pos (mx * my)).
Proof.
  pose proof (digits2_pos_bounds mx) as [Hx _].
  pose proof (digits2_pos_bounds my) as [Hy _].
  pose proof (digits2_pos_bounds (mx * my)) as [_ Hxy].
  set (dx := Z.pos (digits2_pos mx)) in *.
  set (dy := Z.pos (digits2_pos my)) in *.
  set (d := Z.pos (digits2_pos (mx * my))) in *.
  assert (Hdx : 0 < dx) by (subst dx; lia).
  assert (Hdy : 0 < dy) by (subst dy; lia).
  assert (Hd : 0 < d) by (subst d; lia).
  assert (P1 : 0 < 2 ^ (dx - 1)) by (apply Z.pow_pos_nonneg; lia).
  assert (P2 : 0 < 2 ^ (dy - 1)) by (apply Z.pow_pos_nonneg; lia).
  assert (A : 2 ^ (dx - 1 + (dy - 1)) <= Z.pos mx * Z.pos my)
    by (rewrite Z.pow_add_r by lia; apply Z.mul_le_mono_nonneg; lia).
  rewrite Pos2Z.inj_mul in Hxy.
  assert (C : 2 ^ (dx - 1 + (dy - 1)) < 2 ^ d) by lia.
  apply Z.pow_lt_mono_r_iff in C; lia.
Qed.

(** The exact product of two floats has at least as many digits as the
    format keeps, or sits at the smallest exponent. *)
Lemma shift_mul_nonneg (mx my : positive) (ex ey : Z) :
  canonical_mantissa prec emax mx ex = true ->
  canonical_mantissa prec emax my ey = true ->
  0 <= shift (Z.pos (mx * my)) (ex + ey).
Proof.
  unfold canonical_mantissa, shift. rewrite !fexp_value. cbn [Zdigits2].
  intros Hx Hy. apply Z.eqb_eq in Hx, Hy.
  pose proof (digits2_pos_mul mx my).
  assert (0 < Z.pos (digits2_pos mx)) by lia.
  assert (0 < Z.pos (digits2_pos my)) by lia.
  lia.
Qed.

Lemma rne_0 (m : Z) : rne m 0 = m.
Proof.
  unfold rne. change (2 ^ 0) with 1. rewrite Z.div_1_r, Z.mod_1_r. reflexivity.
Qed.

(** A float is its own rounding. *)
Lemma round_aux_bounded (s : bool) (m : positive) (e : Z) :
  bounded prec emax m e = true ->
  binary_round_aux prec emax s (Z.pos m) e loc_Exact = S754_finite s m e.
Proof.
  unfold bounded, canonical_mantissa. rewrite fexp_value.
  intros Hb. apply andb_prop in Hb. destruct Hb as [Hc He].
  apply Z.eqb_eq in Hc. apply Z.leb_le in He. change (emax - prec) with 971 in He.
  assert (Hs : shift (Z.pos m) e = 0)
    by (unfold shift; rewrite fexp_value; cbn [Zdigits2]; lia).
  rewrite (@round_aux_rounded s m e ltac:(lia)). rewrite Hs, rne_0, Z.add_0_r.
  pose proof (digits2_pos_bounds m) as [_ Hhi].
  assert (H53 : 2 ^ Z.pos (digits2_pos m) <= 2 ^ 53)
    by (apply Z.pow_le_mono_r; lia).
  change (2 ^ 53) with 9007199254740992 in H53.
  unfold rounded.
  destruct (Z.ltb_spec (Z.pos m) 9007199254740992); [|lia].
  destruct (Z.leb_spec e 971); [reflexivity|lia].
Qed.

(** The order of two positive floats, on their scaled mantissas. *)
Lemma SFleb_scaled_le (ma mb : positive) (ea eb : Z) :
  bounded prec emax ma ea = true ->
  bounded prec emax mb eb = true ->
  SFleb (S754_finite false ma ea) (S754_finite false mb eb) = true ->
  scaled_le (Z.pos ma) ea (Z.pos mb) eb.
Proof.
  intros Ha Hb Hle.
  pose proof (@aligned_difference_nonpos false false ma mb ea eb Ha Hb Hle) as H.
  cbn [cond_Zopp] in H. rewrite !shl_align_value in H by lia.
  unfold scaled_le. lia.
Qed.

Lemma scaled_le_mul_r (m1 m2 k : positive) (e1 e2 e : Z) :
  scaled_le (Z.pos m1) e1 (Z.pos m2) e2 ->
  scaled_le (Z.pos (m1 * k)) (e1 + e) (Z.pos (m2 * k)) (e2 + e).
Proof.
  unfold scaled_le. intros H.
  replace (Z.min (e1 + e) (e2 + e)) with (Z.min e1 e2 + e) by lia.
  replace (e1 + e - (Z.min e1 e2 + e)) with (e1 - Z.min e1 e2) by lia.
  replace (e2 + e - (Z.min e1 e2 + e)) with (e2 - Z.min e1 e2) by lia.
  rewrite !Pos2Z.inj_mul.
  assert (0 <= 2 ^ (e1 - Z.min e1 e2)) by (apply Z.pow_nonneg; lia).
  assert (0 <= 2 ^ (e2 - Z.min e1 e2)) by (apply Z.pow_nonneg; lia).
  nia.
Qed.

(** The exact values, and their order on scaled mantissas. *)
Lemma Qpower2_pos (e : Z) : (0 < Qpower (2 # 1) e)%Q.
Proof. now apply Qpower_0_lt. Qed.

Lemma Qpower2_split (e c : Z) :
  c <= e ->
  (Qpower (2 # 1) e == inject_Z (2 ^ (e - c)) * Qpower (2 # 1) c)%Q.
Proof.
  intros Hle. replace e with ((e - c) + c) at 1 by lia.
  rewrite Qpower_plus by discriminate.
  rewrite (@Zpower_Qpower 2 (e - c)) by lia. reflexivity.
Qed.

Lemma exact_scaled_le (m1 m2 e1 e2 : Z) :
  ((m1 # 1) * Qpower (2 # 1) e1 <= (m2 # 1) * Qpower (2 # 1) e2)%Q ->
  scaled_le m1 e1 m2 e2.
Proof.
  intros H. unfold scaled_le. set (c := Z.min e1 e2).
  rewrite (@Qpower2_split e1 c) in H by (subst c; lia).
  rewrite (@Qpower2_split e2 c) in H by (subst c; lia).
  rewrite !Qmult_assoc in H.
  apply Qmult_le_r in H; [|apply Qpower2_pos].
  change (m1 # 1)%Q with (inject_Z m1) in H.
  change (m2 # 1)%Q with (inject_Z m2) in H.
  rewrite <- !inject_Z_mult in H. now rewrite Zle_Qle.
Qed.

Lemma exact_positive (m : positive) (e : Z) :
  (0 < (Z.pos m # 1) * Qpower (2 # 1) e)%Q.
Proof.
  apply Qmult_lt_0_compat; [reflexivity|apply Qpower2_pos].
Qed.

(** [S <= G / b] for positive [b] and [S], read on the product [b * S]. *)
Lemma exact_threshold (mb mS : positive) (eb eS : Z) (G : Q) :
  ((Z.pos mS # 1) * Qpower (2 # 1) eS
   <= G / ((Z.pos mb # 1) * Qpower (2 # 1) eb))%Q ->
  ((Z.pos (mb * mS) # 1) * Qpower (2 # 1) (eb + eS) <= G)%Q.
Proof.
  intros H. pose proof (exact_positive mb eb) as Hb.
  set (B := ((Z.pos mb # 1) * Qpower (2 # 1) eb)%Q) in *.
  apply (@Qmult_le_compat_r _ _ B) in H; [|now apply Qlt_le_weak].
  assert (E : (G / B * B == G)%Q)
    by (rewrite Qmult_comm; apply Qmult_div_r; intros E; rewrite E in Hb;
        discriminate Hb).
  rewrite E in H.
  assert (E2 : ((Z.pos (mb * mS) # 1) * Qpower (2 # 1) (eb + eS)
                == (Z.pos mS # 1) * Qpower (2 # 1) eS * B)%Q).
  { subst B. rewrite Qpower_plus by discriminate.
    rewrite Pos2Z.inj_mul.
    change (Z.pos mb * Z.pos mS # 1)%Q with (inject_Z (Z.pos mb * Z.pos mS)).
    rewrite inject_Z_mult.
    change (inject_Z (Z.pos mb)) with (Z.pos mb # 1)%Q.
    change (inject_Z (Z.pos mS)) with (Z.pos mS # 1)%Q. ring. }
  now rewrite E2.
Qed.

(** A rounded number has the sign it was given, unless it is a NaN. *)
Lemma round_aux_sign (s : bool) (m e : Z) (l : location) (z : bool) :
  SFis_nan (binary_round_aux prec emax s m e l) = false ->
  if s
  then SFleb (binary_round_aux prec emax s m e l) (S754_zero z) = true
  else SFleb (S754_zero z) (binary_round_aux prec emax s m e l) = true.
Proof.
  unfold binary_round_aux.
  destruct (shr_fexp prec emax m e l) as [mrs e'].
  destruct (shr_fexp prec emax _ e' loc_Exact) as [mrs' e''].
  destruct (shr_m mrs'); cbn [SFis_nan]; try discriminate; intros _.
  - now destruct s.
  - destruct (Z.leb e'' _), s; reflexivity.
Qed.

Lemma SFleb_across_zero (a b : spec_float) (z z' : bool) :
  SFleb a (S754_zero z) = true -> SFleb (S754_zero z') b = true ->
  SFleb a b = true.
Proof.
  destruct a as [sa|sa| |sa ma ea], b as [sb|sb| |sb mb eb];
    unfold SFleb, SFcompare; try discriminate; try reflexivity.
  all: try (destruct sa; discriminate || reflexivity).
  all: try (destruct sb; discriminate || reflexivity).
  all: destruct sa, sb; discriminate || reflexivity.
Qed.

Lemma binary_normalize_nonpos_or_nan (N e : Z) :
  N <= 0 ->
  SFis_nan (binary_normalize prec emax N e false) = false ->
  SFleb (binary_normalize prec emax N e false) (S754_zero false) = true.
Proof.
  intros HN. destruct N as [|p|p]; [reflexivity|lia|].
  cbn [binary_normalize]. unfold binary_round.
  destruct (shl_align p e _) as [mz ez].
  apply (@round_aux_sign true (Z.pos mz) ez loc_Exact false).
Qed.

(** A difference of [a <= b] is [<= 0], or a NaN. *)
Lemma SFsub_nonpos_or_nan (a b : spec_float) :
  valid_binary prec emax a = true -> valid_binary prec emax b = true ->
  SFleb a b = true ->
  SFis_nan (SF64sub a b) = false ->
  SFleb (SF64sub a b) (S754_zero false) = true.
Proof.
  unfold SF64sub.
  destruct a as [sa|sa| |sa ma ea], b as [sb|sb| |sb mb eb];
    cbn [SFsub valid_binary SFis_nan]; intros Va Vb Hle;
    try discriminate.
  all: try (destruct sa, sb; discriminate || reflexivity).
  all: try (destruct sa; discriminate || reflexivity).
  all: try (destruct sb; discriminate || reflexivity).
  apply binary_normalize_nonpos_or_nan. now apply aligned_difference_nonpos.
Qed.

Lemma bounded_canonical (m : positive) (e : Z) :
  bounded prec emax m e = true -> canonical_mantissa prec emax m e = true.
Proof.
  unfold bounded. intros H. apply andb_prop in H. tauto.
Qed.

(** Products of positive floats are monotone. *)
Lemma SFmul_positive_monotone (m1 m2 k1 k2 : positive) (e1 e2 f1 f2 : Z) :
  canonical_mantissa prec emax m1 e1 = true ->
  canonical_mantissa prec emax k1 f1 = true ->
  canonical_mantissa prec emax m2 e2 = true ->
  canonical_mantissa prec emax k2 f2 = true ->
  scaled_le (Z.pos (m1 * k1)) (e1 + f1) (Z.pos (m2 * k2)) (e2 + f2) ->
  SFleb (SF64mul (S754_finite false m1 e1) (S754_finite false k1 f1))
        (SF64mul (S754_finite false m2 e2) (S754_finite false k2 f2)) = true.
Proof.
  intros C1 D1 C2 D2 Hle. unfold SF64mul. cbn [SFmul xorb].
  apply round_aux_monotone; [now apply shift_mul_nonneg ..|exact Hle].
Qed.

(** The product of [b > 0] and a finite [S] with [S <= g / b] exactly does
    not exceed [g >= 0]. *)
Lemma SFmul_below_threshold (mb : positive) (eb : Z) (S g : spec_float) :
  bounded prec emax mb eb = true ->
  valid_binary prec emax S = true ->
  valid_binary prec emax g = true ->
  Float64.SFfinite S = true -> Float64.SFfinite g = true ->
  SFleb (S754_zero false) g = true ->
  (Float64.SFexact S <= Float64.SFexact g / Float64.SFexact (S754_finite false mb eb))%Q ->
  SFis_nan (SF64mul (S754_finite false mb eb) S) = false ->
  SFleb (SF64mul (S754_finite false mb eb) S) g = true.
Proof.
  intros Hb VS Vg FS Fg Hg Hle Hnan.
  destruct S as [sS|sS| |sS mS eS]; try discriminate.
  - unfold SF64mul. cbn [SFmul].
    destruct g as [sg|sg| |sg mg eg]; try discriminate; [reflexivity|].
    destruct sg; [discriminate|reflexivity].
  - destruct sS.
    + unfold SF64mul in *. cbn [SFmul xorb] in *.
      apply (@SFleb_across_zero _ g false false); [|exact Hg].
      apply (@round_aux_sign true _ _ loc_Exact false Hnan).
    + cbn [Float64.SFexact valid_binary] in *.
      apply exact_threshold in Hle.
      destruct g as [sg|sg| |sg mg eg]; try discriminate.
      * exfalso. cbn [Float64.SFexact] in Hle.
        pose proof (exact_positive (mb * mS) (eb + eS)) as Hpos.
        exact (Qlt_not_le _ _ Hpos Hle).
      * destruct sg; [discriminate|]. cbn [Float64.SFexact valid_binary] in *.
        apply exact_scaled_le in Hle.
        unfold SF64mul. cbn [SFmul xorb].
        rewrite <- (@round_aux_bounded false mg eg Vg).
        apply round_aux_monotone; [| |exact Hle].
        -- apply shift_mul_nonneg; now apply bounded_canonical.
        -- apply bounded_canonical in Vg. unfold canonical_mantissa in Vg.
           apply Z.eqb_eq in Vg. unfold shift. cbn [Zdigits2]. lia.
Qed.

(** Multiplying both sides of [x <= g] by [I >= 0] keeps the order, when
    [g >= 0] is finite and neither product is a NaN. *)
Lemma SFmul_le_mono_r (x g I : spec_float) :
  valid_binary prec emax x = true ->
  valid_binary prec emax g = true ->
  valid_binary prec emax I = true ->
  SFleb x g = true ->
  SFleb (S754_zero false) g = true -> Float64.SFfinite g = true ->
  SFleb (S754_zero false) I = true ->
  SFis_nan (SF64mul x I) = false -> SFis_nan (SF64mul g I) = false ->
  SFleb (SF64mul x I) (SF64mul g I) = true.
Proof.
  intros Vx Vg VI Hxg Hg Fg HI Nx Ng.
  destruct I as [sI|sI| |sI mI eI]; try discriminate.
  - (* I is a zero *)
    unfold SF64mul in *.
    destruct x as [sx|sx| |sx mx ex], g as [sg|sg| |sg mg eg];
      cbn [SFmul SFis_nan] in *; try discriminate; reflexivity.
  - (* I is +inf *)
    destruct sI; [discriminate|]. unfold SF64mul in *.
    destruct x as [sx|sx| |sx mx ex], g as [sg|sg| |sg mg eg];
      cbn [SFmul SFis_nan] in *; try discriminate.
    all: destruct sg; try discriminate.
    all: destruct sx; try discriminate; reflexivity.
  - (* I is a positive float *)
    destruct sI; [discriminate|].
    destruct x as [sx|sx| |sx mx ex]; try discriminate.
    + (* x is a zero *)
      destruct g as [sg|sg| |sg mg eg]; try discriminate; [reflexivity|].
      unfold SF64mul in *. cbn [SFmul] in *.
      destruct sg; [discriminate|]. cbn [xorb] in *.
      apply (@round_aux_sign false _ _ loc_Exact _ Ng).
    + (* x is -inf *)
      destruct sx; [|destruct g as [sg|sg| |sg mg eg]; discriminate].
      unfold SF64mul in *.
      destruct g as [sg|sg| |sg mg eg]; try discriminate; [reflexivity|].
      cbn [SFmul xorb] in *.
      destruct (binary_round_aux prec emax (xorb sg false) _ _ _) as [s|s| |s m e];
        try reflexivity; try discriminate. now destruct s.
    + (* x is a float *)
      destruct sx.
      * unfold SF64mul in Nx. cbn [SFmul xorb] in Nx.
        pose proof (@round_aux_sign true _ _ loc_Exact false Nx) as Hneg.
        change (binary_round_aux prec emax true (Z.pos (mx * mI)) (ex + eI) loc_Exact)
          with (SF64mul (S754_finite true mx ex) (S754_finite false mI eI)) in Hneg.
        apply (@SFleb_across_zero _ _ false false Hneg).
        destruct g as [sg|sg| |sg mg eg]; try discriminate; [reflexivity|].
        destruct sg; [discriminate|].
        unfold SF64mul in *. cbn [SFmul xorb] in *.
        apply (@round_aux_sign false _ _ loc_Exact false Ng).
      * destruct g as [sg|sg| |sg mg eg]; try discriminate.
        destruct sg; [discriminate|]. cbn [valid_binary] in *.
        apply SFmul_positive_monotone; try now apply bounded_canonical.
        apply scaled_le_mul_r. now apply SFleb_scaled_le.
Qed.

Lemma SFsub_not_nan (a b : spec_float) :
  SFis_nan (SF64sub a b) = false -> SFis_nan a = false /\ SFis_nan b = false.
Proof.
  destruct a, b; cbn; intros H; try discriminate; split; reflexivity.
Qed.

Lemma SFmul_not_nan (a b : spec_float) :
  SFis_nan (SF64mul a b) = false -> SFis_nan a = false /\ SFis_nan b = false.
Proof.
  destruct a, b; cbn; intros H; try discriminate; split; reflexivity.
Qed.

Lemma exact_spec (x : float) : Float64.exact x = Float64.SFexact (Prim2SF x).
Proof. reflexivity. Qed.

Open Scope float_scope.

(** Below the threshold, read exactly, the infection flux as computed does
    not exceed the recovery flux as computed, and their difference is [<= 0]
    unless it is a NaN. *)
Lemma infected_derivative_nonpositive_or_nan (b g S I : float) :
  is_finite b = true -> is_finite g = true -> is_finite S = true ->
  (0 <? b) = true -> (0 <=? g) = true -> (0 <=? I) = true ->
  (Float64.exact S <= Float64.exact g / Float64.exact b)%Q ->
  is_nan (b * S * I - g * I) = false ->
  (b * S * I - g * I <=? 0) = true.
Proof.
  intros Fb Fg FS Hb Hg HI Hle Hnan.
  apply is_finite_spec in Fb, Fg, FS.
  rewrite is_nan_spec in Hnan. rewrite !exact_spec in Hle.
  rewrite ltb_spec in Hb. rewrite leb_spec in *.
  pose proof (Prim2SF_valid (b * S * I)) as Vy.
  pose proof (Prim2SF_valid (g * I)) as Vz.
  pose proof (Prim2SF_valid (b * S)) as Vx.
  rewrite sub_spec in *. rewrite !mul_spec in *.
  change (Prim2SF 0) with (S754_zero false) in *.
  pose proof (Prim2SF_valid b) as Vb. pose proof (Prim2SF_valid g) as Vg.
  pose proof (Prim2SF_valid S) as VS. pose proof (Prim2SF_valid I) as VI.
  destruct (@SFsub_not_nan _ _ Hnan) as [Ny Nz].
  destruct (@SFmul_not_nan _ _ Ny) as [Nx _].
  destruct (Prim2SF b) as [sb|sb| |sb mb eb]; try discriminate.
  destruct sb; [discriminate|].
  apply SFsub_nonpos_or_nan; try assumption.
  apply SFmul_le_mono_r; try assumption.
  apply SFmul_below_threshold; assumption.
Qed.

End Float64Order.

(** ** The methods, step by step *)

Section MethodFacts.

Context {A : Type} `{PyNumber A}.

Open Scope py_scope.

(** On a state of three components the body runs to its [return]. *)
Lemma sir_equations_three (S I R t : A) (self : SIRModel A) :
  sir_equations [S; I; R] t self
  = (Ok [- beta self * S * I;
         beta self * S * I - gamma self * I;
         gamma self * I],
     self, []).
Proof. reflexivity. Qed.

(** On any other state the unpacking raises before anything else happens. *)
Lemma sir_equations_unpack_fails (y : list A) (t : A) (self : SIRModel A) :
  length y <> 3%nat ->
  exists msg, sir_equations y t self = (Raise (ValueError msg), self, []).
Proof.
  destruct y as [|a [|b [|c [|d y]]]]; cbn [length]; intros Hlen;
    try (eexists; reflexivity).
  now elim Hlen.
Qed.

(** The callback handed to [odeint] is total on three-component states. *)
Lemma bound_sir_equations_total (self : SIRModel A) (y : list A) (s : A) :
  length y = 3%nat ->
  exists d, callback self y s = Ok d /\ length d = 3%nat.
Proof.
  destruct y as [|a [|b [|c [|d y]]]]; cbn [length]; try discriminate.
  intros _. unfold callback. rewrite sir_equations_three.
  eexists; split; reflexivity.
Qed.

End MethodFacts.

(** ** The vector field *)

(** C1. For every state [(S, I, R)] and every time [t], [sir_equations] on a
    freshly constructed model returns exactly the three derivatives
    [-beta*S*I], [beta*S*I - gamma*I] and [gamma*I], computed from the
    [beta] and [gamma] given to the constructor, whatever the number type;
    for floats and for fractions the first one is also [-(beta*S*I)], so
    both readings of the formula give the same value. *)
Theorem sir_equations_derivative_triple :
  (forall (A : Type) (num : PyNumber A) (b g : A) (ic : list A) (S I R t : A),
      match __init__ b g ic with
      | Ok self =>
          sir_equations [S; I; R] t self
          = (Ok [- b * S * I; b * S * I - g * I; g * I]%py, self, [])
      | Raise _ => False
      end)
  /\ (forall (b g : float) (ic : list float) (S I R t : float),
      match __init__ b g ic with
      | Ok self =>
          sir_equations [S; I; R] t self
          = (Ok [- (b * S * I); b * S * I - g * I; g * I]%float, self, [])
      | Raise _ => False
      end)
  /\ (forall (b g : Qc) (ic : list Qc) (S I R t : Qc),
      match __init__ b g ic with
      | Ok self =>
          sir_equations [S; I; R] t self
          = (Ok [- (b * S * I); b * S * I - g * I; g * I]%Qc, self, [])
      | Raise _ => False
      end).
Proof.
  split; [|split]; intros; cbn [__init__]; rewrite sir_equations_three;
    cbn [beta gamma].
  - reflexivity.
  - cbn [neg sub mul float_number]. now rewrite Float64Facts.opp_flux.
  - cbn [neg sub mul fraction_number].
    assert (E : (- b * S * I = - (b * S * I))%Qc) by ring.
    now rewrite E.
Qed.

(** C10. [sir_equations] needs a state of exactly three components: on a
    state of any other length the unpacking raises [ValueError]; on a state of
    three components, whatever the numbers and the time, it returns a list of
    three derivatives without raising.  Either way the instance is left as it
    was and nothing is logged. *)
Theorem sir_equations_arity :
  forall (A : Type) (num : PyNumber A) (self : SIRModel A) (y : list A) (t : A),
    (length y <> 3%nat ->
     exists msg, sir_equations y t self = (Raise (ValueError msg), self, []))
    /\ (length y = 3%nat ->
        exists d, sir_equations y t self = (Ok d, self, []) /\ length d = 3%nat).
Proof.
  intros A num self y t. split.
  - apply sir_equations_unpack_fails.
  - destruct y as [|a [|b [|c [|d y]]]]; cbn [length]; try discriminate.
    intros _. rewrite sir_equations_three. eexists. split; reflexivity.
Qed.

Lemma sir_equations_arity_witness :
  (exists msg,
      sir_equations [0.99; 0.01]%float 0%float Examples.textbook
      = (Raise (ValueError msg), Examples.textbook, []))
  /\ (exists d,
         sir_equations [0.99; 0.01; 0]%float 0%float Examples.textbook
         = (Ok d, Examples.textbook, []) /\ length d = 3%nat).
Proof.
  split.
  - apply (proj1 (sir_equations_arity float_number Examples.textbook
                    [0.99; 0.01]%float 0%float)).
    cbn [length]. lia.
  - apply (proj2 (sir_equations_arity float_number Examples.textbook
                    [0.99; 0.01; 0]%float 0%float)).
    reflexivity.
Defined.

(** ** Conservation *)

(** The float sum of the components in the order [(dS + dI) + dR] is not
    zero for the model [outbreak] in its initial state: it is [2^-57], and so
    is the exact sum of the three floats returned. *)
Lemma conservation_fails_in_binary64 :
  sir_equations [0.75; 0.25; 0]%float 0%float Examples.outbreak
  = (Ok [-0.09375; 0.06875; 0.025]%float,
     Examples.outbreak, [])
  /\ Float64.sum [-0.09375; 0.06875; 0.025]%float
     = 0x1p-57%float
  /\ (0x1p-57 =? 0)%float = false
  /\ (Float64.exact (-0.09375) + Float64.exact 0.06875
      + Float64.exact 0.025 == 1 # (2 ^ 57))%Q.
Proof.
  repeat split; vm_compute; reflexivity.
Qed.

(** C3, as the code has it. The three components are built from the same two
    fluxes, [beta*S*I] out of [S] and [gamma*I] into [R].  With fractions
    they sum exactly to zero.  With floats the middle one is the rounded
    difference [(-dS) - dR], and the sum taken as [(dS + dR) + dI] is zero
    whenever [dI] is finite; it is the order [(dS + dI) + dR] that can leave
    the rounding error of that difference. *)
Theorem derivatives_cancel :
  (forall (b g : Qc) (ic : list Qc) (S I R t : Qc),
      match __init__ b g ic with
      | Ok self =>
          exists dS dI dR,
            sir_equations [S; I; R] t self = (Ok [dS; dI; dR], self, [])
            /\ (dS + dI + dR = 0)%Qc
      | Raise _ => False
      end)
  /\ (forall (b g : float) (ic : list float) (S I R t : float),
      match __init__ b g ic with
      | Ok self =>
          exists dS dI dR,
            sir_equations [S; I; R] t self = (Ok [dS; dI; dR], self, [])
            /\ (dI = - dS - dR)%float
            /\ (is_finite dI = true -> (dS + dR + dI =? 0)%float = true)
      | Raise _ => False
      end).
Proof.
  split; intros; cbn [__init__]; rewrite sir_equations_three;
    cbn [beta gamma]; do 3 eexists; (split; [reflexivity|]).
  - cbn [neg sub mul fraction_number]. ring.
  - cbn [neg sub mul float_number].
    rewrite Float64Facts.opp_flux, Float64Facts.opp_involutive.
    split; [reflexivity|].
    apply Float64Facts.add_opp_sub_cancels.
Qed.

Lemma derivatives_cancel_witness :
  exists dS dI dR,
    sir_equations [0.75; 0.25; 0]%float 0%float Examples.outbreak
    = (Ok [dS; dI; dR], Examples.outbreak, [])
    /\ (dS + dR + dI =? 0)%float = true.
Proof.
  destruct (proj2 derivatives_cancel 0.5 0.1 [0.75; 0.25; 0] 0.75 0.25 0 0)%float
    as (dS & dI & dR & E & _ & Hzero).
  exists dS, dI, dR. split; [exact E|].
  apply Hzero.
  assert (EI : dI = 0.06875%float)
    by (vm_compute in E; congruence).
  rewrite EI. reflexivity.
Defined.

(** ** The epidemic threshold *)

Section FractionFacts.

Open Scope Qc_scope.

(** Below the threshold the infection flux does not exceed the recovery
    flux. *)
Lemma infected_derivative_nonpositive (b g S I : Qc) :
  0 < b -> 0 <= I -> S <= g / b -> b * S * I - g * I <= 0.
Proof.
  intros Hb HI HS.
  assert (Hb0 : b <> 0) by (intros E; rewrite E in Hb; discriminate Hb).
  assert (H1 : S * b <= g / b * b)
    by (apply Qcmult_le_compat_r; [assumption | now apply Qclt_le_weak]).
  replace (g / b * b) with g in H1 by (now field).
  replace (S * b) with (b * S) in H1 by ring.
  apply (Qcmult_le_compat_r _ _ I) in H1; [|assumption].
  apply Qcle_minus_iff in H1. apply Qcle_minus_iff.
  replace (0 + - (b * S * I - g * I)) with (g * I + - (b * S * I)) by ring.
  exact H1.
Qed.

End FractionFacts.

(** The threshold has to be read on the exact numbers.  On the model
    [at_threshold], [beta = 0.14], [gamma = 0.11], [I = 0.125] and [S] is the
    float [0.11 / 0.14]: the test [S <= gamma / beta] holds as Python
    evaluates it, yet [beta * S > gamma] exactly, by the rounding of the
    quotient, and the derivative of [I] that [sir_equations] returns is
    [2^-59 > 0]. *)
Remark threshold_test_is_rounded :
  (0.7857142857142857 <=? 0.11 / 0.14)%float = true
  /\ (Float64.exact 0.14 * Float64.exact 0.7857142857142857
      ?= Float64.exact 0.11)%Q = Gt
  /\ sir_equations [0.7857142857142857; 0.125; 0.0892857142857143]%float
       0%float Examples.at_threshold
     = (Ok [-0.013750000000000002; 0x1p-59; 0.01375]%float,
        Examples.at_threshold, [])
  /\ (0x1p-59 <=? 0)%float = false.
Proof.
  repeat split; vm_compute; reflexivity.
Qed.

(** With floats the threshold property fails by overflow.  On the model
    [overflowing], [beta = 1 > 0], [gamma = 10 >= 0], [I = 1e308 >= 0] and
    [S = 10 = gamma / beta], all of them finite and the quotient without any
    rounding, and both fluxes overflow: the derivative of [I] is
    [inf - inf], a NaN, which is not [<= 0]. *)
Lemma threshold_fails_in_binary64 :
  is_finite 1 = true /\ is_finite 10 = true /\ is_finite 1e308 = true
  /\ (0 <? 1)%float = true
  /\ (0 <=? 10)%float = true
  /\ (0 <=? 1e308)%float = true
  /\ (Float64.exact 10 <= Float64.exact 10 / Float64.exact 1)%Q
  /\ (10 <=? 10 / 1)%float = true
  /\ sir_equations [10; 1e308; 0]%float 0%float Examples.overflowing
     = (Ok [neg_infinity; nan; infinity], Examples.overflowing, [])
  /\ (nan <=? 0)%float = false.
Proof.
  repeat split; try (vm_compute; reflexivity). vm_compute. discriminate.
Qed.

(** C5, as the code has it. When the numbers are exact (fractions), for
    [beta > 0], [gamma >= 0] and a state with [I >= 0] and
    [S <= gamma / beta], the derivative of [I] that [sir_equations] returns
    is [<= 0].  With floats, for finite [beta > 0], [gamma >= 0] and [S],
    for [I >= 0], and for [S <= gamma / beta] as exact numbers, the
    derivative of [I] that [sir_equations] returns is [<= 0] unless it is a
    NaN. *)
Theorem infected_derivative_below_threshold :
  (forall (b g : Qc) (ic : list Qc) (S I R t : Qc),
      (0 < b)%Qc -> (0 <= g)%Qc -> (0 <= I)%Qc -> (S <= g / b)%Qc ->
      match __init__ b g ic with
      | Ok self =>
          exists dS dI dR,
            sir_equations [S; I; R] t self = (Ok [dS; dI; dR], self, [])
            /\ (dI <= 0)%Qc
      | Raise _ => False
      end)
  /\ (forall (b g : float) (ic : list float) (S I R t : float),
        is_finite b = true -> is_finite g = true -> is_finite S = true ->
        (0 <? b)%float = true -> (0 <=? g)%float = true ->
        (0 <=? I)%float = true ->
        (Float64.exact S <= Float64.exact g / Float64.exact b)%Q ->
        match __init__ b g ic with
        | Ok self =>
            exists dS dI dR,
              sir_equations [S; I; R] t self = (Ok [dS; dI; dR], self, [])
              /\ (is_nan dI = false -> (dI <=? 0)%float = true)
        | Raise _ => False
        end).
Proof.
  split.
  - intros b g ic S I R t Hb _ HI HS. cbn [__init__].
    rewrite sir_equations_three. cbn [beta gamma]. do 3 eexists.
    split; [reflexivity|].
    now apply infected_derivative_nonpositive.
  - intros b g ic S I R t Fb Fg FS Hb Hg HI HS. cbn [__init__].
    rewrite sir_equations_three. cbn [beta gamma]. do 3 eexists.
    split; [reflexivity|].
    cbn [neg sub mul float_number].
    now apply Float64Order.infected_derivative_nonpositive_or_nan.
Qed.

Lemma infected_derivative_below_threshold_witness :
  (exists dS dI dR,
      sir_equations [Q2Qc (1 # 4); Q2Qc (1 # 100); Q2Qc (74 # 100)] (Q2Qc 0)
        Examples.textbook_fraction
      = (Ok [dS; dI; dR], Examples.textbook_fraction, [])
      /\ (dI <= 0)%Qc)
  /\ (exists dS dI dR,
        sir_equations [0.25; 0.01; 0.74]%float 0%float Examples.textbook
        = (Ok [dS; dI; dR], Examples.textbook, [])
        /\ (dI <=? 0)%float = true).
Proof.
  split.
  - apply (proj1 infected_derivative_below_threshold
             (Q2Qc (3 # 10)) (Q2Qc (1 # 10))
             [Q2Qc (99 # 100); Q2Qc (1 # 100); Q2Qc 0]
             (Q2Qc (1 # 4)) (Q2Qc (1 # 100)) (Q2Qc (74 # 100)) (Q2Qc 0)).
    + reflexivity.
    + vm_compute. discriminate.
    + vm_compute. discriminate.
    + vm_compute. discriminate.
  - assert (HS : (Float64.exact 0.25
                  <= Float64.exact 0.1 / Float64.exact 0.3)%Q)
      by (vm_compute; discriminate).
    destruct (proj2 infected_derivative_below_threshold
                0.3 0.1 [0.99; 0.01; 0] 0.25 0.01 0.74 0
                eq_refl eq_refl eq_refl eq_refl eq_refl eq_refl HS)%float
      as (dS & dI & dR & E & Hsign).
    exists dS, dI, dR. split; [exact E|].
    apply Hsign.
    assert (EI : dI = (0.3 * 0.25 * 0.01 - 0.1 * 0.01)%float)
      by (vm_compute in E; vm_compute; congruence).
    rewrite EI. reflexivity.
Defined.

(** ** The driver and the readers, step by step *)

Section DriverFacts.

Context {A : Type} `{PyNumber A}.
Variable odeint : solver A.

(** [simulate] is the call to [odeint] followed, when it returns, by the
    assignment; what [odeint] raises goes through. *)
Lemma simulate_run (t : list A) (self : SIRModel A) :
  simulate odeint t self
  = match odeint (callback self) (initial_conditions self) t with
    | (Ok y, ws) => (Ok tt, set_results self y, map Warn ws)
    | (Raise e, ws) => (Raise e, self, map Warn ws)
    end.
Proof.
  unfold simulate, bind, bound_sir_equations, getattr, call_odeint,
    setattr_results.
  destruct (odeint (callback self) (initial_conditions self) t) as [[y|e] ws];
    cbn [app]; [now rewrite app_nil_r | reflexivity].
Qed.

Lemma plot_results_unset (t : list A) (self : SIRModel A) :
  results self = None ->
  plot_results t self = (Raise (AttributeError "results"), self, []).
Proof.
  intros E. unfold plot_results, bind, getattr_results. now rewrite E.
Qed.

Lemma plot_phase_portrait_unset (self : SIRModel A) :
  results self = None ->
  plot_phase_portrait self = (Raise (AttributeError "results"), self, []).
Proof.
  intros E. unfold plot_phase_portrait, bind, getattr_results. now rewrite E.
Qed.

(** Unpacking and plotting never write to the instance. *)
Lemma unpack3_emits_frame {X} (xs : list X) (k : X -> X -> X -> M A unit)
    (self : SIRModel A) :
  (forall a b c, self_after (k a b c self) = self) ->
  self_after (unpack3 xs k self) = self.
Proof.
  intros Hk. destruct xs as [|a [|b [|c [|d xs]]]]; cbn; auto.
Qed.

Lemma plot_results_frame (t : list A) (self : SIRModel A) :
  self_after (plot_results t self) = self.
Proof.
  unfold plot_results, bind at 1, getattr_results.
  destruct (results self) as [r|]; [|reflexivity].
  destruct (unpack3 (rows (T r)) _ self) as [[v self'] l] eqn:E.
  change self' with (self_after (v, self', l)). rewrite <- E.
  apply unpack3_emits_frame. reflexivity.
Qed.

Lemma plot_phase_portrait_frame (self : SIRModel A) :
  self_after (plot_phase_portrait self) = self.
Proof.
  unfold plot_phase_portrait, bind at 1, getattr_results.
  destruct (results self) as [r|]; [|reflexivity].
  destruct (unpack3 (rows (T r)) _ self) as [[v self'] l] eqn:E.
  change self' with (self_after (v, self', l)). rewrite <- E.
  apply unpack3_emits_frame. reflexivity.
Qed.

Lemma sir_equations_frame (y : list A) (t : A) (self : SIRModel A) :
  self_after (sir_equations y t self) = self.
Proof.
  destruct y as [|a [|b [|c [|d y]]]]; reflexivity.
Qed.

Lemma returning_self_after {X} (v : X -> option (list A)) (m : M A X)
    (self : SIRModel A) :
  self_after (returning v m self) = self_after (m self).
Proof.
  unfold returning, bind, ret, self_after.
  destruct (m self) as [[[x|e] self'] l]; reflexivity.
Qed.

Lemma returning_value_of {X} (v : X -> option (list A)) (m : M A X)
    (self : SIRModel A) :
  value_of (returning v m self)
  = match value_of (m self) with Ok x => Ok (v x) | Raise e => Raise e end.
Proof.
  unfold returning, bind, ret, value_of.
  destruct (m self) as [[[x|e] self'] l]; reflexivity.
Qed.

(** One call either leaves the instance as it was, or it is a [simulate]
    that returned and rebound [results]. *)
Lemma run_call_cases (c : call A) (self : SIRModel A) :
  self_after (run_call odeint c self) = self
  \/ exists t y,
      c = call_simulate t
      /\ value_of (run_call odeint c self) = Ok None
      /\ self_after (run_call odeint c self) = set_results self y.
Proof.
  destruct c as [y t|t|t|]; cbn [run_call].
  - left. now rewrite returning_self_after, sir_equations_frame.
  - rewrite returning_self_after, returning_value_of, simulate_run.
    destruct (odeint (callback self) (initial_conditions self) t) as [[y|e] ws].
    + right. exists t, y. repeat split.
    + now left.
  - left. now rewrite returning_self_after, plot_results_frame.
  - left. now rewrite returning_self_after, plot_phase_portrait_frame.
Qed.

(** A call other than a [simulate] that returned leaves [results] as it
    was. *)
Lemma run_call_keeps_cache (c : call A) (self : SIRModel A) :
  simulated [(c, value_of (run_call odeint c self))] = false ->
  self_after (run_call odeint c self) = self.
Proof.
  destruct (run_call_cases c self) as [E|(t & y & -> & Ev & _)];
    [trivial|].
  rewrite Ev. discriminate.
Qed.

Lemma run_calls_cons_self_after (c : call A) (cs : list (call A))
    (self : SIRModel A) :
  self_after (run_calls odeint (c :: cs) self)
  = self_after (run_calls odeint cs (self_after (run_call odeint c self))).
Proof.
  cbn [run_calls]. unfold self_after.
  destruct (run_call odeint c self) as [[r self1] l1]. cbn [fst snd].
  destruct (run_calls odeint cs self1) as [[rs self2] l2]. reflexivity.
Qed.

Lemma run_calls_cons_value_of (c : call A) (cs : list (call A))
    (self : SIRModel A) :
  value_of (run_calls odeint (c :: cs) self)
  = (c, value_of (run_call odeint c self))
    :: value_of (run_calls odeint cs (self_after (run_call odeint c self))).
Proof.
  cbn [run_calls]. unfold value_of, self_after.
  destruct (run_call odeint c self) as [[r self1] l1]. cbn [fst snd].
  destruct (run_calls odeint cs self1) as [[rs self2] l2]. reflexivity.
Qed.

(** The constructor's three attributes survive any sequence of calls. *)
Lemma run_calls_frame (cs : list (call A)) (self : SIRModel A) :
  beta (self_after (run_calls odeint cs self)) = beta self
  /\ gamma (self_after (run_calls odeint cs self)) = gamma self
  /\ initial_conditions (self_after (run_calls odeint cs self))
     = initial_conditions self.
Proof.
  revert self. induction cs as [|c cs IH]; intros self; [now repeat split|].
  rewrite run_calls_cons_self_after.
  destruct (IH (self_after (run_call odeint c self))) as (Hb & Hg & Hi).
  rewrite Hb, Hg, Hi.
  destruct (run_call_cases c self) as [->|(t & y & _ & _ & ->)];
    now repeat split.
Qed.

(** While no [simulate] has returned, [results] stays unset. *)
Lemma run_calls_unsimulated (cs : list (call A)) (self : SIRModel A) :
  results self = None ->
  simulated (value_of (run_calls odeint cs self)) = false ->
  results (self_after (run_calls odeint cs self)) = None.
Proof.
  revert self. induction cs as [|c cs IH]; intros self Hnone; [trivial|].
  rewrite run_calls_cons_self_after, run_calls_cons_value_of.
  cbn [simulated existsb]. intros Hsim.
  apply orb_false_iff in Hsim. destruct Hsim as [Hc Hcs].
  apply IH; [|exact Hcs].
  rewrite run_call_keeps_cache; [exact Hnone|].
  cbn [simulated existsb]. now rewrite Hc.
Qed.

End DriverFacts.

(** ** Construction *)

(** The constructor is given a negative rate, a NaN rate and initial
    conditions that are infinite, negative and NaN: it returns an instance
    that holds them, and raises nothing. *)
Lemma constructor_accepts_invalid_input :
  (-1 <? 0)%float = true
  /\ is_finite nan = false
  /\ is_finite infinity = false
  /\ __init__ (-1)%float nan [infinity; (-5)%float; nan]
     = Ok {| beta := (-1)%float; gamma := nan;
             initial_conditions := [infinity; (-5)%float; nan];
             results := None |}.
Proof.
  repeat split.
Qed.

(** C8, as the code has it. Construction never fails: for every [beta],
    [gamma] and initial conditions, of any number type, [__init__] stores the
    three values as given and returns the instance, without [results]; and
    the vector field of that instance returns on every three-component
    state, so nothing is rejected there either. *)
Theorem constructor_stores_unvalidated :
  forall (A : Type) (num : PyNumber A) (b g : A) (ic : list A),
    __init__ b g ic
    = Ok {| beta := b; gamma := g; initial_conditions := ic; results := None |}
    /\ forall (S I R t : A),
        exists d,
          sir_equations [S; I; R] t
            {| beta := b; gamma := g; initial_conditions := ic; results := None |}
          = (Ok d,
             {| beta := b; gamma := g; initial_conditions := ic; results := None |},
             []).
Proof.
  intros A num b g ic. split; [reflexivity|].
  intros S I R t. rewrite sir_equations_three. now eexists.
Qed.

(** ** Reading the trajectory *)

(** C6. On an instance on which no call to [simulate] has returned yet,
    whatever else was called in between (failed calls to [simulate]
    included), both readers raise [AttributeError] at [self.results]: nothing
    is plotted and the instance is unchanged. *)
Theorem readers_fail_before_simulate :
  forall (A : Type) (num : PyNumber A) (odeint : solver A)
         (b g : A) (ic : list A) (self : SIRModel A)
         (cs : list (call A)) (t : list A),
    __init__ b g ic = Ok self ->
    simulated (value_of (run_calls odeint cs self)) = false ->
    plot_results t (self_after (run_calls odeint cs self))
    = (Raise (AttributeError "results"), self_after (run_calls odeint cs self), [])
    /\ plot_phase_portrait (self_after (run_calls odeint cs self))
       = (Raise (AttributeError "results"), self_after (run_calls odeint cs self), []).
Proof.
  intros A num odeint b g ic self cs t Hnew Hsim.
  injection Hnew as <-.
  assert (Hnone : results (self_after (run_calls odeint cs
            {| beta := b; gamma := g; initial_conditions := ic; results := None |}))
          = None)
    by (now apply run_calls_unsimulated).
  split.
  - now apply plot_results_unset.
  - now apply plot_phase_portrait_unset.
Qed.

Lemma readers_fail_before_simulate_witness :
  plot_results [0; 1]%float
    (self_after (run_calls Integrators.failing_odeint
       [call_sir_equations [0.99; 0.01; 0]%float 0%float;
        call_simulate [0; 1]%float;
        call_plot_phase_portrait]
       Examples.textbook))
  = (Raise (AttributeError "results"), Examples.textbook, [])
  /\ plot_phase_portrait
       (self_after (run_calls Integrators.failing_odeint
          [call_sir_equations [0.99; 0.01; 0]%float 0%float;
           call_simulate [0; 1]%float;
           call_plot_phase_portrait]
          Examples.textbook))
     = (Raise (AttributeError "results"), Examples.textbook, []).
Proof.
  apply (readers_fail_before_simulate float_number Integrators.failing_odeint
           (b := 0.3%float) (g := 0.1%float) (ic := [0.99; 0.01; 0]%float)
           (self := Examples.textbook)
           [call_sir_equations [0.99; 0.01; 0]%float 0%float;
            call_simulate [0; 1]%float;
            call_plot_phase_portrait]
           [0; 1]%float).
  - reflexivity.
  - reflexivity.
Defined.

(** ** Integration *)

(** A solver that gives up the way [odeint] does, with a warning and an
    array: [simulate] returns normally, and the array has taken the place of
    the trajectory cached before. *)
Lemma solver_warning_is_stored :
  solver_failed
    (Integrators.warning_odeint (callback Examples.textbook_simulated)
       [0.99; 0.01; 0]%float [0; 1; 2]%float) = true
  /\ simulate Integrators.warning_odeint [0; 1; 2]%float Examples.textbook_simulated
     = (Ok tt,
        set_results Examples.textbook_simulated
          {| ncols := 3;
             rows := [[0.99; 0.01; 0]; [0.99; 0.01; 0]; [0.99; 0.01; 0]]%float |},
        [Warn Integrators.excess_work])
  /\ results (self_after (simulate Integrators.warning_odeint [0; 1; 2]%float
                            Examples.textbook_simulated))
     <> results Examples.textbook_simulated.
Proof.
  split; [reflexivity|]. split; [reflexivity|].
  cbv. discriminate.
Qed.

(** C7, as the code has it. [simulate] does nothing about the outcome of
    [odeint] but pass it on: an exception raised by [odeint] goes to the
    caller and leaves the instance (rates, initial conditions, cached
    trajectory) as it was; an array returned by [odeint] is stored as the
    new [results], whatever warnings came with it.  The warnings reach the
    caller either way. *)
Theorem simulate_passes_solver_outcome :
  forall (A : Type) (num : PyNumber A) (odeint : solver A)
         (t : list A) (self : SIRModel A),
    match odeint (callback self) (initial_conditions self) t with
    | (Raise e, ws) => simulate odeint t self = (Raise e, self, map Warn ws)
    | (Ok y, ws) => simulate odeint t self = (Ok tt, set_results self y, map Warn ws)
    end.
Proof.
  intros A num odeint t self. rewrite simulate_run.
  now destruct (odeint (callback self) (initial_conditions self) t) as [[y|e] ws].
Qed.

(** C9. Whatever methods are called on an instance, and however the calls
    end, [beta], [gamma] and [initial_conditions] keep the values the
    constructor stored.  Every call to [simulate] to which [odeint] returns
    an array returns, and replaces [results], whatever was cached before, by
    that array, changing nothing else; a call in which [odeint] raises
    raises and changes nothing.  Two calls in a row leave the array of the
    second.  What is handed to [odeint] does not depend on the cache. *)
Theorem attributes_are_stable :
  forall (A : Type) (num : PyNumber A) (odeint : solver A),
    (forall (b g : A) (ic : list A) (cs : list (call A)),
        match __init__ b g ic with
        | Ok self =>
            beta (self_after (run_calls odeint cs self)) = b
            /\ gamma (self_after (run_calls odeint cs self)) = g
            /\ initial_conditions (self_after (run_calls odeint cs self)) = ic
        | Raise _ => False
        end)
    /\ (forall (t : list A) (self : SIRModel A),
          match odeint (callback self) (initial_conditions self) t with
          | (Ok y, _) =>
              value_of (simulate odeint t self) = Ok tt
              /\ self_after (simulate odeint t self) = set_results self y
              /\ results (self_after (simulate odeint t self)) = Some y
              /\ beta (self_after (simulate odeint t self)) = beta self
              /\ gamma (self_after (simulate odeint t self)) = gamma self
              /\ initial_conditions (self_after (simulate odeint t self))
                 = initial_conditions self
          | (Raise e, _) =>
              value_of (simulate odeint t self) = Raise e
              /\ self_after (simulate odeint t self) = self
          end)
    /\ (forall (t : list A) (self : SIRModel A),
          match value_of (simulate odeint t self) with
          | Ok _ =>
              exists y ws,
                odeint (callback self) (initial_conditions self) t = (Ok y, ws)
                /\ self_after (simulate odeint t self) = set_results self y
                /\ results (self_after (simulate odeint t self)) = Some y
          | Raise _ => self_after (simulate odeint t self) = self
          end)
    /\ (forall (t1 t2 : list A) (self : SIRModel A) (y1 y2 : ndarray A)
               (ws1 ws2 : list warning),
          odeint (callback self) (initial_conditions self) t1 = (Ok y1, ws1) ->
          odeint (callback (set_results self y1)) (initial_conditions self) t2
          = (Ok y2, ws2) ->
          results (self_after (simulate odeint t2
                                 (self_after (simulate odeint t1 self))))
          = Some y2)
    /\ (forall (self : SIRModel A) (old : ndarray A) (y : list A) (s : A),
          callback (set_results self old) y s = callback self y s
          /\ initial_conditions (set_results self old) = initial_conditions self).
Proof.
  intros A num odeint. split; [|split; [|split; [|split]]].
  - intros b g ic cs. cbn [__init__].
    destruct (run_calls_frame odeint cs
                {| beta := b; gamma := g; initial_conditions := ic;
                   results := None |}) as (Hb & Hg & Hi).
    now rewrite Hb, Hg, Hi.
  - intros t self. rewrite simulate_run.
    destruct (odeint (callback self) (initial_conditions self) t) as [[y|e] ws];
      cbn [value_of self_after fst snd]; now repeat split.
  - intros t self. rewrite simulate_run.
    destruct (odeint (callback self) (initial_conditions self) t) as [[y|e] ws];
      cbn [value_of self_after fst snd].
    + exists y, ws. now repeat split.
    + reflexivity.
  - intros t1 t2 self y1 y2 ws1 ws2 H1 H2.
    rewrite (simulate_run odeint t1 self), H1. cbn [self_after fst snd].
    rewrite simulate_run. cbn [initial_conditions set_results].
    fold (set_results self y1). now rewrite H2.
  - intros self old y s. split; [|reflexivity].
    unfold callback. destruct y as [|a [|b [|c [|d y]]]]; reflexivity.
Qed.

Lemma attributes_are_stable_witness :
  exists y2,
    results (self_after (simulate Integrators.euler_odeint [0; 1; 2]%float
               (self_after (simulate Integrators.euler_odeint [0; 1]%float
                              Examples.textbook))))
    = Some y2
    /\ nrows y2 = 3%nat.
Proof.
  eexists. split.
  - eapply (proj1 (proj2 (proj2 (proj2
              (@attributes_are_stable float float_number
                 Integrators.euler_odeint))))).
    + lazy. reflexivity.
    + lazy. reflexivity.
  - reflexivity.
Defined.

(** The Euler integrator meets the interface assumed of [odeint]. *)
Section EulerFacts.

Import Integrators.

Variable func : list float -> float -> result (list float).
Variable n : nat.
Hypothesis func_total :
  forall y s, length y = n -> exists d, func y s = Ok d /\ length d = n.

Lemma euler_step_length (h : float) (y d : list float) :
  length y = n -> length d = n -> length (euler_step h y d) = n.
Proof.
  intros Hy Hd. unfold euler_step.
  rewrite length_map, length_combine, Hy, Hd. apply Nat.min_id.
Qed.

Lemma euler_rows_total (ts : list float) :
  forall (y : list float) (t0 : float),
    length y = n ->
    exists rs, euler_rows func y t0 ts = Ok rs /\ length rs = length ts.
Proof.
  induction ts as [|t1 ts IH]; intros y t0 Hy; cbn [euler_rows].
  - now exists [].
  - destruct (func_total y t0 Hy) as (d & -> & Hd).
    destruct (IH (euler_step (t1 - t0) y d) t1) as (rs & -> & Hrs).
    + now apply euler_step_length.
    + exists (euler_step (t1 - t0) y d :: rs). cbn [length].
      now rewrite Hrs.
Qed.

End EulerFacts.

Lemma euler_odeint_contract : odeint_contract Integrators.euler_odeint.
Proof.
  intros func y0 t Ht _ Hfunc.
  destruct t as [|t0 ts]; [now elim Ht|].
  unfold Integrators.euler_odeint.
  destruct (@euler_rows_total func (length y0) Hfunc ts y0 t0 eq_refl)
    as (rs & -> & Hrs).
  eexists _, []. split; [reflexivity|].
  unfold nrows. cbn [rows ncols length hd_error]. now rewrite Hrs.
Qed.

(** C4. With an [odeint] that keeps to its interface, on a model built with
    three initial conditions and for every non-empty, strictly increasing
    time grid, [simulate] returns and caches a trajectory that has exactly one
    row of three components per time point and whose first row is the
    initial conditions given to the constructor. *)
Theorem simulate_one_row_per_time_point :
  forall (odeint : solver float),
    odeint_contract odeint ->
    forall (b g S0 I0 R0 : float) (self : SIRModel float) (t : list float),
      __init__ b g [S0; I0; R0] = Ok self ->
      t <> [] ->
      Float64.strictly_increasing t = true ->
      exists (y : ndarray float) (ws : list warning),
        simulate odeint t self = (Ok tt, set_results self y, map Warn ws)
        /\ results (set_results self y) = Some y
        /\ nrows y = length t
        /\ ncols y = 3%nat
        /\ hd_error (rows y) = Some [S0; I0; R0].
Proof.
  intros odeint Hodeint b g S0 I0 R0 self t Hnew Ht Hinc.
  injection Hnew as <-.
  set (self := {| beta := b; gamma := g; initial_conditions := [S0; I0; R0];
                  results := None |}).
  destruct (Hodeint (callback self) [S0; I0; R0] t Ht Hinc)
    as (y & ws & Hcall & Hrows & Hcols & Hhd).
  - intros y s Hy. now apply bound_sir_equations_total.
  - exists y, ws. rewrite simulate_run. cbn [initial_conditions self].
    rewrite Hcall. now repeat split.
Qed.

Lemma simulate_one_row_per_time_point_witness :
  exists (y : ndarray float) (ws : list warning),
    simulate Integrators.euler_odeint [0; 1; 2]%float Examples.textbook
    = (Ok tt, set_results Examples.textbook y, map Warn ws)
    /\ results (set_results Examples.textbook y) = Some y
    /\ nrows y = 3%nat
    /\ ncols y = 3%nat
    /\ hd_error (rows y) = Some [0.99; 0.01; 0]%float.
Proof.
  apply (simulate_one_row_per_time_point euler_odeint_contract
           (b := 0.3%float) (g := 0.1%float)
           (S0 := 0.99%float) (I0 := 0.01%float) (R0 := 0%float)
           (self := Examples.textbook) (t := [0; 1; 2]%float)).
  - reflexivity.
  - discriminate.
  - reflexivity.
Defined.

(** * Further properties of the class *)

(** ** Columns of a trajectory *)

Section ArrayFacts.

Context {A : Type}.
Local Open Scope nat_scope.

Lemma column_cons (j : nat) (row : list A) (rs : list (list A)) (x : A) :
  nth_error row j = Some x -> column j (row :: rs) = x :: column j rs.
Proof. intros E. unfold column. cbn [flat_map]. now rewrite E. Qed.

(** Entry [i] of column [j] is entry [j] of row [i]. *)
Lemma column_nth_error (j : nat) (rs : list (list A)) :
  Forall (fun row => j < length row) rs ->
  forall i row,
    nth_error rs i = Some row -> nth_error (column j rs) i = nth_error row j.
Proof.
  induction 1 as [|r rs Hr Hrs IH]; intros i row Hi.
  - now destruct i.
  - destruct (nth_error r j) as [x|] eqn:E;
      [|apply nth_error_None in E; lia].
    rewrite (@column_cons j r rs x E). destruct i as [|i]; cbn [nth_error] in *.
    + injection Hi as <-. now rewrite E.
    + now apply IH.
Qed.

Lemma column_length (j : nat) (rs : list (list A)) :
  Forall (fun row => j < length row) rs -> length (column j rs) = length rs.
Proof.
  induction 1 as [|r rs Hr Hrs IH]; [reflexivity|].
  destruct (nth_error r j) as [x|] eqn:E;
    [|apply nth_error_None in E; lia].
  rewrite (@column_cons j r rs x E). cbn [length]. now rewrite IH.
Qed.

Lemma rectangular_columns (a : ndarray A) (j : nat) :
  rectangular a -> j < ncols a ->
  Forall (fun row => j < length row) (rows a).
Proof.
  unfold rectangular. intros Hrect Hj.
  eapply Forall_impl; [|exact Hrect]. cbn. intros row ->. exact Hj.
Qed.

(** The columns of a rectangular array are aligned with its rows. *)
Lemma column_aligned (a : ndarray A) (j : nat) :
  rectangular a -> j < ncols a ->
  length (column j (rows a)) = nrows a
  /\ forall i row,
       nth_error (rows a) i = Some row ->
       nth_error (column j (rows a)) i = nth_error row j.
Proof.
  intros Hrect Hj.
  pose proof (rectangular_columns Hrect Hj) as Hall. split.
  - now apply column_length.
  - now apply column_nth_error.
Qed.

(** [.T] has one row per column. *)
Lemma T_length (a : ndarray A) : length (rows (T a)) = ncols a.
Proof. unfold T. cbn [rows]. now rewrite length_map, length_seq. Qed.

Lemma hd_error_nth_error (l : list A) : hd_error l = nth_error l 0.
Proof. now destruct l. Qed.

End ArrayFacts.

(** ** The readers on a cached trajectory *)

Section ReaderFacts.

Context {A : Type} `{PyNumber A}.
Local Open Scope nat_scope.

Lemma unpack3_wrong_length {X Y} (xs : list X) (k : X -> X -> X -> M A Y)
    (self : SIRModel A) :
  length xs <> 3 ->
  exists msg, unpack3 xs k self = (Raise (ValueError msg), self, []).
Proof.
  destruct xs as [|a [|b [|c [|d xs]]]]; cbn [length]; intros Hlen;
    try (eexists; reflexivity).
  now elim Hlen.
Qed.

(** With three columns in the cache, [plot_results] runs through. *)
Lemma plot_results_returns (self : SIRModel A) (r : ndarray A) (t : list A) :
  results self = Some r ->
  ncols r = 3 ->
  plot_results t self
  = (Ok tt, self,
     [Plt (figure 10 6);
      Plt (plot t (column 0 (rows r)) "Susceptible");
      Plt (plot t (column 1 (rows r)) "Infected");
      Plt (plot t (column 2 (rows r)) "Recovered");
      Plt (xlabel "Time");
      Plt (ylabel "Proportion of Population");
      Plt (title "SIR Model");
      Plt legend;
      Plt show]).
Proof.
  intros Hres Hcols.
  unfold plot_results, bind at 1, getattr_results. rewrite Hres.
  unfold T. cbn [rows]. rewrite Hcols. reflexivity.
Qed.

Lemma plot_phase_portrait_returns (self : SIRModel A) (r : ndarray A) :
  results self = Some r ->
  ncols r = 3 ->
  plot_phase_portrait self
  = (Ok tt, self,
     [Plt (figure 10 6);
      Plt (plot (column 0 (rows r)) (column 1 (rows r)) "Phase Portrait");
      Plt (xlabel "Susceptible");
      Plt (ylabel "Infected");
      Plt (title "Phase Portrait of SIR Model");
      Plt legend;
      Plt show]).
Proof.
  intros Hres Hcols.
  unfold plot_phase_portrait, bind at 1, getattr_results. rewrite Hres.
  unfold T. cbn [rows]. rewrite Hcols. reflexivity.
Qed.

End ReaderFacts.

(** X1. On an instance whose cached trajectory is a rectangular array of
    three columns, and for a [t] with one time point per row of it,
    [plot_results t] returns, leaves the instance as it was, and draws one
    figure with three curves against [t], "Susceptible", "Infected" and
    "Recovered" in this order, then the axis labels, the title, the legend
    and [show].  The three curves are columns 0, 1 and 2 of the trajectory:
    each has as many points as [t], and point [i] of curve [j] is entry [j]
    of row [i]. *)
Theorem plot_results_series :
  forall (A : Type) (num : PyNumber A)
         (self : SIRModel A) (r : ndarray A) (t : list A),
    results self = Some r ->
    ncols r = 3%nat ->
    rectangular r ->
    length t = nrows r ->
    plot_results t self
    = (Ok tt, self,
       [Plt (figure 10 6);
        Plt (plot t (column 0 (rows r)) "Susceptible");
        Plt (plot t (column 1 (rows r)) "Infected");
        Plt (plot t (column 2 (rows r)) "Recovered");
        Plt (xlabel "Time");
        Plt (ylabel "Proportion of Population");
        Plt (title "SIR Model");
        Plt legend;
        Plt show])
    /\ forall j, (j < 3)%nat ->
         length (column j (rows r)) = length t
         /\ forall i row,
              nth_error (rows r) i = Some row ->
              nth_error (column j (rows r)) i = nth_error row j.
Proof.
  intros A num self r t Hres Hcols Hrect Ht. split.
  - now apply plot_results_returns.
  - intros j Hj. rewrite Ht.
    apply column_aligned; [assumption|]. now rewrite Hcols.
Qed.

Lemma plot_results_series_witness :
  plot_results [0; 1]%float Examples.textbook_simulated
  = (Ok tt, Examples.textbook_simulated,
     [Plt (figure 10 6);
      Plt (plot [0; 1] [0.99; 0.98] "Susceptible");
      Plt (plot [0; 1] [0.01; 0.015] "Infected");
      Plt (plot [0; 1] [0; 0.005] "Recovered");
      Plt (xlabel "Time");
      Plt (ylabel "Proportion of Population");
      Plt (title "SIR Model");
      Plt legend;
      Plt show]%float).
Proof.
  refine (proj1 (@plot_results_series float float_number
                   Examples.textbook_simulated Examples.cached
                   [0; 1]%float eq_refl eq_refl _ eq_refl)).
  repeat constructor.
Defined.

(** X2. On the same kind of instance, [plot_phase_portrait] returns, leaves
    the instance as it was, and draws one curve, column 1 of the trajectory
    (infected) against column 0 (susceptible), point for point; the third
    column is unpacked and not used. *)
Theorem plot_phase_portrait_series :
  forall (A : Type) (num : PyNumber A) (self : SIRModel A) (r : ndarray A),
    results self = Some r ->
    ncols r = 3%nat ->
    rectangular r ->
    plot_phase_portrait self
    = (Ok tt, self,
       [Plt (figure 10 6);
        Plt (plot (column 0 (rows r)) (column 1 (rows r)) "Phase Portrait");
        Plt (xlabel "Susceptible");
        Plt (ylabel "Infected");
        Plt (title "Phase Portrait of SIR Model");
        Plt legend;
        Plt show])
    /\ length (column 0 (rows r)) = length (column 1 (rows r))
    /\ forall i row,
         nth_error (rows r) i = Some row ->
         nth_error (column 0 (rows r)) i = nth_error row 0
         /\ nth_error (column 1 (rows r)) i = nth_error row 1.
Proof.
  intros A num self r Hres Hcols Hrect.
  assert (H0 : (0 < ncols r)%nat) by (rewrite Hcols; lia).
  assert (H1 : (1 < ncols r)%nat) by (rewrite Hcols; lia).
  destruct (column_aligned Hrect H0) as [L0 N0].
  destruct (column_aligned Hrect H1) as [L1 N1].
  split; [now apply plot_phase_portrait_returns|]. split.
  - now rewrite L0, L1.
  - intros i row Hi. split; [now apply N0 | now apply N1].
Qed.

Lemma plot_phase_portrait_series_witness :
  plot_phase_portrait Examples.textbook_simulated
  = (Ok tt, Examples.textbook_simulated,
     [Plt (figure 10 6);
      Plt (plot [0.99; 0.98] [0.01; 0.015] "Phase Portrait");
      Plt (xlabel "Susceptible");
      Plt (ylabel "Infected");
      Plt (title "Phase Portrait of SIR Model");
      Plt legend;
      Plt show]%float).
Proof.
  refine (proj1 (@plot_phase_portrait_series float float_number
                   Examples.textbook_simulated Examples.cached
                   eq_refl eq_refl _)).
  repeat constructor.
Defined.

(** X3. When the cached array does not have exactly three columns, both
    readers raise [ValueError] at the unpacking of [self.results.T], before
    any plotting call, and leave the instance as it was. *)
Theorem readers_reject_other_widths :
  forall (A : Type) (num : PyNumber A)
         (self : SIRModel A) (r : ndarray A) (t : list A),
    results self = Some r ->
    ncols r <> 3%nat ->
    (exists msg, plot_results t self = (Raise (ValueError msg), self, []))
    /\ (exists msg, plot_phase_portrait self = (Raise (ValueError msg), self, [])).
Proof.
  intros A num self r t Hres Hcols.
  assert (Hlen : length (rows (T r)) <> 3%nat) by now rewrite T_length.
  split.
  - unfold plot_results, bind at 1, getattr_results. rewrite Hres.
    destruct (unpack3_wrong_length (rows (T r))
                (fun S I R : list A =>
                   bind (emit (figure 10 6)) (fun _ =>
                   bind (emit (plot t S "Susceptible")) (fun _ =>
                   bind (emit (plot t I "Infected")) (fun _ =>
                   bind (emit (plot t R "Recovered")) (fun _ =>
                   bind (emit (xlabel "Time")) (fun _ =>
                   bind (emit (ylabel "Proportion of Population")) (fun _ =>
                   bind (emit (title "SIR Model")) (fun _ =>
                   bind (emit legend) (fun _ => emit show)))))))))
                self Hlen) as [msg E].
    exists msg. now rewrite E.
  - unfold plot_phase_portrait, bind at 1, getattr_results. rewrite Hres.
    destruct (unpack3_wrong_length (rows (T r))
                (fun S I _ : list A =>
                   bind (emit (figure 10 6)) (fun _ =>
                   bind (emit (plot S I "Phase Portrait")) (fun _ =>
                   bind (emit (xlabel "Susceptible")) (fun _ =>
                   bind (emit (ylabel "Infected")) (fun _ =>
                   bind (emit (title "Phase Portrait of SIR Model")) (fun _ =>
                   bind (emit legend) (fun _ => emit show)))))))
                self Hlen) as [msg E].
    exists msg. now rewrite E.
Qed.

Lemma readers_reject_other_widths_witness :
  (exists msg,
      plot_results [0; 1]%float MoreExamples.narrow_cache
      = (Raise (ValueError msg), MoreExamples.narrow_cache, []))
  /\ (exists msg,
         plot_phase_portrait MoreExamples.narrow_cache
         = (Raise (ValueError msg), MoreExamples.narrow_cache, [])).
Proof.
  refine (@readers_reject_other_widths float float_number
            MoreExamples.narrow_cache _ [0; 1]%float eq_refl _).
  cbn. discriminate.
Defined.

(** ** The life of the cache *)

Section CacheFacts.

Context {A : Type} `{PyNumber A}.
Variable odeint : solver A.

(** A [simulate] that returned has rebound [results]. *)
Lemma run_call_simulate_returned (t : list A) (self : SIRModel A)
    (v : option (list A)) :
  value_of (run_call odeint (call_simulate t) self) = Ok v ->
  exists y, self_after (run_call odeint (call_simulate t) self) = set_results self y.
Proof.
  cbn [run_call].
  rewrite returning_self_after, returning_value_of, simulate_run.
  destruct (odeint (callback self) (initial_conditions self) t) as [[y|e] ws];
    cbn [value_of self_after fst snd]; [|discriminate].
  intros _. now exists y.
Qed.

(** No call unsets [results]. *)
Lemma run_call_keeps_results_set (c : call A) (self : SIRModel A) :
  results self <> None -> results (self_after (run_call odeint c self)) <> None.
Proof.
  intros Hset.
  destruct (run_call_cases odeint c self) as [->|(t & y & _ & _ & ->)];
    [assumption | discriminate].
Qed.

Lemma run_calls_keep_results_set (cs : list (call A)) :
  forall self : SIRModel A,
    results self <> None ->
    results (self_after (run_calls odeint cs self)) <> None.
Proof.
  induction cs as [|c cs IH]; intros self Hset; [exact Hset|].
  rewrite run_calls_cons_self_after.
  now apply IH, run_call_keeps_results_set.
Qed.

Lemma run_calls_simulated_set (cs : list (call A)) :
  forall self : SIRModel A,
    simulated (value_of (run_calls odeint cs self)) = true ->
    results (self_after (run_calls odeint cs self)) <> None.
Proof.
  induction cs as [|c cs IH]; intros self; [discriminate|].
  rewrite run_calls_cons_self_after, run_calls_cons_value_of.
  cbn [simulated existsb]. intros Hsim.
  apply orb_true_iff in Hsim. destruct Hsim as [Hc|Hcs]; [|now apply IH].
  apply run_calls_keep_results_set.
  destruct c as [y t|t|t|]; try discriminate.
  destruct (value_of (run_call odeint (call_simulate t) self)) as [v|e] eqn:Ev;
    [|discriminate].
  destruct (run_call_simulate_returned _ _ Ev) as [y ->]. discriminate.
Qed.

End CacheFacts.

(** X4. The instance has two states and goes one way.  After construction
    and any sequence of calls, [results] exists if and only if some call to
    [simulate] has returned; once it exists no method removes it, whatever
    the later calls do (a later [simulate] that raises included). *)
Theorem cache_exists_iff_simulated :
  forall (A : Type) (num : PyNumber A) (odeint : solver A),
    (forall (b g : A) (ic : list A) (cs : list (call A)),
        match __init__ b g ic with
        | Ok self =>
            simulated (value_of (run_calls odeint cs self)) = true
            <-> results (self_after (run_calls odeint cs self)) <> None
        | Raise _ => False
        end)
    /\ (forall (self : SIRModel A) (r : ndarray A) (cs : list (call A)),
          results (self_after (run_calls odeint cs (set_results self r))) <> None).
Proof.
  intros A num odeint. split.
  - intros b g ic cs. cbn [__init__]. split.
    + apply run_calls_simulated_set.
    + intros Hset.
      destruct (simulated (value_of (run_calls odeint cs _))) eqn:Hsim;
        [reflexivity|].
      elim Hset. now apply run_calls_unsimulated.
  - intros self r cs. apply run_calls_keep_results_set. discriminate.
Qed.

(** ** A model of the wrong size *)

(** X5. A model built with other than three initial conditions is accepted
    by the constructor and fails in [simulate]: with an [odeint] that
    evaluates the right-hand side at the initial state, a call on a strictly
    increasing grid of at least two time points raises the [ValueError] of
    the unpacking in [sir_equations], and the instance is left without
    [results]. *)
Theorem simulate_rejects_wrong_size :
  forall (odeint : solver float),
    odeint_evaluates_initial_state odeint ->
    forall (b g : float) (ic : list float) (self : SIRModel float)
           (t0 t1 : float) (ts : list float),
      __init__ b g ic = Ok self ->
      length ic <> 3%nat ->
      Float64.strictly_increasing (t0 :: t1 :: ts) = true ->
      exists msg,
        value_of (simulate odeint (t0 :: t1 :: ts) self) = Raise (ValueError msg)
        /\ self_after (simulate odeint (t0 :: t1 :: ts) self) = self
        /\ results self = None.
Proof.
  intros odeint Hodeint b g ic self t0 t1 ts Hnew Hlen Hinc.
  injection Hnew as <-.
  set (self := {| beta := b; gamma := g; initial_conditions := ic;
                  results := None |}).
  destruct (sir_equations_unpack_fails ic t0 self Hlen) as [msg E].
  exists msg. rewrite simulate_run.
  pose proof (Hodeint (callback self) ic t0 t1 ts (ValueError msg) Hinc)
    as Hraise.
  unfold callback at 1 in Hraise. rewrite E in Hraise.
  specialize (Hraise eq_refl). cbn [initial_conditions self].
  destruct (odeint (callback self) ic (t0 :: t1 :: ts)) as [[y|e] ws];
    cbn [fst] in Hraise; [discriminate|].
  injection Hraise as ->. now repeat split.
Qed.

Lemma euler_evaluates_initial_state :
  odeint_evaluates_initial_state Integrators.euler_odeint.
Proof.
  intros func y0 t0 t1 ts e _ E.
  unfold Integrators.euler_odeint. cbn [Integrators.euler_rows].
  now rewrite E.
Qed.

Lemma simulate_rejects_wrong_size_witness :
  exists msg,
    value_of (simulate Integrators.euler_odeint [0; 1; 2]%float
                MoreExamples.two_compartments)
    = Raise (ValueError msg)
    /\ self_after (simulate Integrators.euler_odeint [0; 1; 2]%float
                     MoreExamples.two_compartments)
       = MoreExamples.two_compartments
    /\ results MoreExamples.two_compartments = None.
Proof.
  refine (@simulate_rejects_wrong_size
            Integrators.euler_odeint euler_evaluates_initial_state
            0.3%float 0.1%float [0.99; 0.01]%float
            MoreExamples.two_compartments 0%float 1%float [2%float]
            eq_refl _ eq_refl).
  cbn. discriminate.
Defined.

(** ** From [simulate] to the plot *)

Section EulerRows.

Import Integrators.

Variable func : list float -> float -> result (list float).
Variable n : nat.
Hypothesis func_total :
  forall y s, length y = n -> exists d, func y s = Ok d /\ length d = n.

Lemma euler_rows_lengths (ts : list float) :
  forall (y : list float) (t0 : float) (rs : list (list float)),
    length y = n ->
    euler_rows func y t0 ts = Ok rs ->
    Forall (fun row => length row = n) rs.
Proof.
  induction ts as [|t1 ts IH]; intros y t0 rs Hy; cbn [euler_rows].
  - intros E. injection E as <-. constructor.
  - destruct (func_total y t0 Hy) as (d & -> & Hd).
    pose proof (@euler_step_length n (t1 - t0)%float y d Hy Hd) as Hy1.
    destruct (euler_rows func _ t1 ts) as [rs'|e] eqn:E; [|discriminate].
    intros E'. injection E' as <-. constructor; [exact Hy1|].
    exact (IH _ _ _ Hy1 E).
Qed.

End EulerRows.

Lemma euler_odeint_rectangular : odeint_rectangular Integrators.euler_odeint.
Proof.
  intros func y0 t Hfunc y ws. unfold Integrators.euler_odeint.
  destruct t as [|t0 ts].
  - intros E. injection E as <- _. constructor.
  - destruct (Integrators.euler_rows func y0 t0 ts) as [rs|e] eqn:Erows;
      [|discriminate].
    intros E. injection E as <- _. constructor; [reflexivity|].
    exact (@euler_rows_lengths func (length y0) Hfunc ts y0 t0 rs eq_refl Erows).
Qed.

(** X6. With an [odeint] that keeps to its interface, [simulate t] followed
    by [plot_results t] on a model of three initial conditions, for a
    non-empty increasing grid, returns and draws three curves that have one
    point per time point and start at the initial conditions given to the
    constructor: susceptible at [S0], infected at [I0], recovered at [R0]. *)
Theorem simulate_then_plot_results :
  forall (odeint : solver float),
    odeint_contract odeint ->
    odeint_rectangular odeint ->
    forall (b g S0 I0 R0 : float) (self : SIRModel float) (t : list float),
      __init__ b g [S0; I0; R0] = Ok self ->
      t <> [] ->
      Float64.strictly_increasing t = true ->
      exists (Ss Is Rs : list float),
        value_of (simulate odeint t self) = Ok tt
        /\ plot_results t (self_after (simulate odeint t self))
           = (Ok tt, self_after (simulate odeint t self),
              [Plt (figure 10 6);
               Plt (plot t Ss "Susceptible");
               Plt (plot t Is "Infected");
               Plt (plot t Rs "Recovered");
               Plt (xlabel "Time");
               Plt (ylabel "Proportion of Population");
               Plt (title "SIR Model");
               Plt legend;
               Plt show])
        /\ length Ss = length t /\ length Is = length t /\ length Rs = length t
        /\ hd_error Ss = Some S0 /\ hd_error Is = Some I0 /\ hd_error Rs = Some R0.
Proof.
  intros odeint Hodeint Hrect b g S0 I0 R0 self t Hnew Ht Hinc.
  injection Hnew as <-.
  set (self := {| beta := b; gamma := g; initial_conditions := [S0; I0; R0];
                  results := None |}).
  assert (Hfunc : forall y s, length y = length [S0; I0; R0] ->
            exists d, callback self y s = Ok d /\ length d = length [S0; I0; R0])
    by (intros y s Hy; now apply bound_sir_equations_total).
  destruct (Hodeint (callback self) [S0; I0; R0] t Ht Hinc Hfunc)
    as (y & ws & Hcall & Hrows & Hcols & Hhd).
  pose proof (Hrect (callback self) [S0; I0; R0] t Hfunc y ws Hcall) as Hy.
  cbn [length] in Hcols.
  rewrite simulate_run. cbn [initial_conditions self]. rewrite Hcall.
  cbn [value_of self_after fst snd].
  rewrite hd_error_nth_error in Hhd.
  assert (Hcol : forall j, (j < 3)%nat ->
            length (column j (rows y)) = length t
            /\ hd_error (column j (rows y)) = nth_error [S0; I0; R0] j).
  { intros j Hj.
    destruct (@column_aligned _ y j Hy) as [L N]; [now rewrite Hcols|].
    split; [now rewrite L, <- Hrows|].
    rewrite hd_error_nth_error. now apply N. }
  destruct (Hcol 0%nat) as [L0 N0]; [lia|].
  destruct (Hcol 1%nat) as [L1 N1]; [lia|].
  destruct (Hcol 2%nat) as [L2 N2]; [lia|].
  exists (column 0 (rows y)), (column 1 (rows y)), (column 2 (rows y)).
  split; [reflexivity|].
  split; [now apply plot_results_returns|].
  now repeat split.
Qed.

Lemma simulate_then_plot_results_witness :
  exists (Ss Is Rs : list float),
    value_of (simulate Integrators.euler_odeint [0; 1; 2]%float Examples.textbook)
    = Ok tt
    /\ plot_results [0; 1; 2]%float
         (self_after (simulate Integrators.euler_odeint [0; 1; 2]%float
                        Examples.textbook))
       = (Ok tt,
          self_after (simulate Integrators.euler_odeint [0; 1; 2]%float
                        Examples.textbook),
          [Plt (figure 10 6);
           Plt (plot [0; 1; 2]%float Ss "Susceptible");
           Plt (plot [0; 1; 2]%float Is "Infected");
           Plt (plot [0; 1; 2]%float Rs "Recovered");
           Plt (xlabel "Time");
           Plt (ylabel "Proportion of Population");
           Plt (title "SIR Model");
           Plt legend;
           Plt show])
    /\ length Ss = 3%nat /\ length Is = 3%nat /\ length Rs = 3%nat
    /\ hd_error Ss = Some 0.99%float
    /\ hd_error Is = Some 0.01%float
    /\ hd_error Rs = Some 0%float.
Proof.
  refine (@simulate_then_plot_results Integrators.euler_odeint
            euler_odeint_contract euler_odeint_rectangular
            0.3%float 0.1%float 0.99%float 0.01%float 0%float
            Examples.textbook [0; 1; 2]%float eq_refl _ eq_refl).
  discriminate.
Defined.

(** ** Zero fluxes and signs *)

Module Float64ZeroFacts.

Import Float64Classes.
Open Scope float_scope.

Lemma eqb_zero_spec (x : float) : (x =? 0) = SFis_zero (Prim2SF x).
Proof.
  rewrite FloatAxioms.eqb_spec. change (Prim2SF 0) with (S754_zero false).
  destruct (Prim2SF x) as [s|s| |s m e]; try reflexivity; now destruct s.
Qed.

Lemma mul_zero_l (x y : float) :
  (x =? 0) = true -> is_finite y = true -> (x * y =? 0) = true.
Proof.
  intros Hx Hy. apply Float64Facts.is_finite_spec in Hy.
  rewrite eqb_zero_spec in *. rewrite mul_spec. unfold SF64mul.
  destruct (Prim2SF x) as [sx|sx| |sx mx ex]; try discriminate.
  destruct (Prim2SF y) as [sy|sy| |sy my ey]; try discriminate; reflexivity.
Qed.

Lemma mul_zero_r (x y : float) :
  is_finite x = true -> (y =? 0) = true -> (x * y =? 0) = true.
Proof.
  intros Hx Hy. apply Float64Facts.is_finite_spec in Hx.
  rewrite eqb_zero_spec in *. rewrite mul_spec. unfold SF64mul.
  destruct (Prim2SF y) as [sy|sy| |sy my ey]; try discriminate.
  destruct (Prim2SF x) as [sx|sx| |sx mx ex]; try discriminate; reflexivity.
Qed.

Lemma opp_zero (x : float) : (x =? 0) = true -> (- x =? 0) = true.
Proof.
  rewrite !eqb_zero_spec, opp_spec. now destruct (Prim2SF x).
Qed.

Lemma sub_zero_zero (x y : float) :
  (x =? 0) = true -> (y =? 0) = true -> (x - y =? 0) = true.
Proof.
  rewrite !eqb_zero_spec, sub_spec. unfold SF64sub.
  destruct (Prim2SF x) as [sx|sx| |sx mx ex]; try discriminate.
  destruct (Prim2SF y) as [sy|sy| |sy my ey]; try discriminate.
  intros _ _. now destruct sx, sy.
Qed.

Lemma SFeqb_refl (x : spec_float) : SFis_nan x = false -> SFeqb x x = true.
Proof.
  destruct x as [s|s| |s m e]; try discriminate; intros _; try now destruct s.
  unfold SFeqb, SFcompare. destruct s; rewrite Z.compare_refl, Pos.compare_cont_refl; reflexivity.
Qed.

(** [0 - y] is [-y]. *)
Lemma sub_zero_l (x y : float) :
  (x =? 0) = true -> is_nan y = false -> (x - y =? - y) = true.
Proof.
  rewrite eqb_zero_spec, Float64Facts.is_nan_spec, FloatAxioms.eqb_spec, sub_spec, opp_spec.
  unfold SF64sub.
  destruct (Prim2SF x) as [sx|sx| |sx mx ex]; try discriminate.
  destruct (Prim2SF y) as [sy|sy| |sy my ey]; try discriminate; intros _ _;
    cbn [SFsub SFopp].
  - now destruct sx, sy.
  - now destruct sy.
  - apply SFeqb_refl. reflexivity.
Qed.

(** [x - 0] is [x]. *)
Lemma sub_zero_r (x y : float) :
  (y =? 0) = true -> is_nan x = false -> (x - y =? x) = true.
Proof.
  rewrite eqb_zero_spec, Float64Facts.is_nan_spec, FloatAxioms.eqb_spec, sub_spec.
  unfold SF64sub.
  destruct (Prim2SF y) as [sy|sy| |sy my ey]; try discriminate.
  destruct (Prim2SF x) as [sx|sx| |sx mx ex]; try discriminate; intros _ _;
    cbn [SFsub].
  - now destruct sx, sy.
  - now destruct sx.
  - apply SFeqb_refl. reflexivity.
Qed.

Lemma is_nan_opp (x : float) : is_nan (- x) = is_nan x.
Proof. rewrite !Float64Facts.is_nan_spec, opp_spec. now destruct (Prim2SF x). Qed.

Lemma is_nan_mul_l (x y : float) : is_nan (x * y) = false -> is_nan x = false.
Proof.
  rewrite !Float64Facts.is_nan_spec, mul_spec. unfold SF64mul.
  destruct (Prim2SF x); try reflexivity. discriminate.
Qed.

Lemma mul_nonneg (x y : float) :
  (0 <=? x) = true -> (0 <=? y) = true -> is_nan (x * y) = false ->
  (0 <=? x * y) = true.
Proof.
  rewrite !leb_spec, Float64Facts.is_nan_spec, mul_spec.
  change (Prim2SF 0) with (S754_zero false). unfold SF64mul.
  destruct (Prim2SF x) as [sx|sx| |sx mx ex], (Prim2SF y) as [sy|sy| |sy my ey];
    cbn [SFmul]; try discriminate; try reflexivity.
  all: try (destruct sx, sy; (discriminate || reflexivity)).
  all: try (destruct sx; (discriminate || reflexivity)).
  all: try (destruct sy; (discriminate || reflexivity)).
  destruct sx, sy; try discriminate. intros _ _. cbn [xorb].
  unfold SpecFloat.binary_round_aux.
  destruct (SpecFloat.shr_fexp prec emax _ _ _) as [mrs e'].
  destruct (SpecFloat.shr_fexp prec emax _ e' SpecFloat.loc_Exact) as [mrs' e''].
  destruct (SpecFloat.shr_m mrs'); try reflexivity; try discriminate.
  destruct (Z.leb e'' _); reflexivity.
Qed.

Lemma opp_nonpos (x : float) : (0 <=? x) = true -> (- x <=? 0) = true.
Proof.
  rewrite !leb_spec, opp_spec. change (Prim2SF 0) with (S754_zero false).
  destruct (Prim2SF x) as [s|s| |s m e]; try discriminate; try reflexivity;
    now destruct s.
Qed.

End Float64ZeroFacts.

Section FractionSigns.

Open Scope Qc_scope.

Lemma Qc_mul_nonneg (a b : Qc) : 0 <= a -> 0 <= b -> 0 <= a * b.
Proof.
  intros Ha Hb. replace 0 with (0 * b) by ring.
  now apply Qcmult_le_compat_r.
Qed.

Lemma Qc_opp_nonpos (a : Qc) : 0 <= a -> - a <= 0.
Proof.
  intros Ha. apply Qcle_minus_iff. now replace (0 + - - a) with a by ring.
Qed.

End FractionSigns.

(** X7. A state without infected is an equilibrium.  With fractions, at
    [I = 0] the three derivatives are exactly zero, whatever the rates, [S]
    and [R].  With floats they are zeros when [I] is a zero and the contact
    rate [beta * S] and [gamma] are finite. *)
Theorem no_infected_is_equilibrium :
  (forall (self : SIRModel Qc) (S R t : Qc),
      sir_equations [S; Q2Qc 0; R] t self
      = (Ok [Q2Qc 0; Q2Qc 0; Q2Qc 0], self, []))
  /\ (forall (self : SIRModel float) (S I R t : float),
        (I =? 0)%float = true ->
        is_finite (beta self * S)%float = true ->
        is_finite (gamma self) = true ->
        exists dS dI dR,
          sir_equations [S; I; R] t self = (Ok [dS; dI; dR], self, [])
          /\ (dS =? 0)%float = true
          /\ (dI =? 0)%float = true
          /\ (dR =? 0)%float = true).
Proof.
  split.
  - intros self S R t. rewrite sir_equations_three.
    cbn [neg sub mul fraction_number].
    replace (- beta self * S * Q2Qc 0)%Qc with (Q2Qc 0) by ring.
    replace (beta self * S * Q2Qc 0 - gamma self * Q2Qc 0)%Qc with (Q2Qc 0)
      by ring.
    replace (gamma self * Q2Qc 0)%Qc with (Q2Qc 0) by ring.
    reflexivity.
  - intros self S I R t HI Hbs Hg. rewrite sir_equations_three.
    cbn [neg sub mul float_number]. rewrite Float64Facts.opp_flux.
    do 3 eexists. split; [reflexivity|].
    pose proof (@Float64ZeroFacts.mul_zero_r _ _ Hbs HI) as Hflux.
    pose proof (@Float64ZeroFacts.mul_zero_r _ _ Hg HI) as Hrec.
    repeat split.
    + now apply Float64ZeroFacts.opp_zero.
    + now apply Float64ZeroFacts.sub_zero_zero.
    + exact Hrec.
Qed.

Lemma no_infected_is_equilibrium_witness :
  exists dS dI dR,
    sir_equations [0.99; 0; 0.01]%float 0%float Examples.textbook
    = (Ok [dS; dI; dR], Examples.textbook, [])
    /\ (dS =? 0)%float = true
    /\ (dI =? 0)%float = true
    /\ (dR =? 0)%float = true.
Proof.
  exact (proj2 no_infected_is_equilibrium Examples.textbook
           0.99%float 0%float 0.01%float 0%float eq_refl eq_refl eq_refl).
Defined.

(** X8. Without contact there is no new infection.  With fractions, when
    [beta * S = 0] (no transmission, or nobody susceptible) the derivative of
    [S] is zero and the derivative of [I] is the opposite of the derivative
    of [R].  With floats the same holds, up to the sign of a zero, when
    [beta * S] is a zero and [I] is finite, as long as the derivative of [R]
    is not a NaN. *)
Theorem no_contact_no_infection :
  (forall (self : SIRModel Qc) (S I R t : Qc),
      (beta self * S = Q2Qc 0)%Qc ->
      exists dS dI dR,
        sir_equations [S; I; R] t self = (Ok [dS; dI; dR], self, [])
        /\ dS = Q2Qc 0 /\ (dI = - dR)%Qc)
  /\ (forall (self : SIRModel float) (S I R t : float),
        (beta self * S =? 0)%float = true ->
        is_finite I = true ->
        exists dS dI dR,
          sir_equations [S; I; R] t self = (Ok [dS; dI; dR], self, [])
          /\ (dS =? 0)%float = true
          /\ (is_nan dR = false -> (dI =? - dR)%float = true)).
Proof.
  split.
  - intros self S I R t Hbs. rewrite sir_equations_three.
    cbn [neg sub mul fraction_number]. do 3 eexists.
    split; [reflexivity|]. split.
    + replace (- beta self * S * I)%Qc with (- (beta self * S) * I)%Qc by ring.
      rewrite Hbs. ring.
    + rewrite Hbs. ring.
  - intros self S I R t Hbs HI. rewrite sir_equations_three.
    cbn [neg sub mul float_number]. rewrite Float64Facts.opp_flux.
    do 3 eexists. split; [reflexivity|].
    pose proof (@Float64ZeroFacts.mul_zero_l _ _ Hbs HI) as Hflux.
    split.
    + now apply Float64ZeroFacts.opp_zero.
    + intros Hnan. now apply Float64ZeroFacts.sub_zero_l.
Qed.

Lemma no_contact_no_infection_witness :
  (exists dS dI dR,
      sir_equations [Q2Qc (99 # 100); Q2Qc (1 # 100); Q2Qc 0] (Q2Qc 0)
        {| beta := Q2Qc 0; gamma := Q2Qc (1 # 10);
           initial_conditions := []; results := None |}
      = (Ok [dS; dI; dR],
         {| beta := Q2Qc 0; gamma := Q2Qc (1 # 10);
            initial_conditions := []; results := None |}, [])
      /\ dS = Q2Qc 0 /\ (dI = - dR)%Qc)
  /\ (exists dS dI dR,
        sir_equations [0.99; 0.01; 0]%float 0%float MoreExamples.no_transmission
        = (Ok [dS; dI; dR], MoreExamples.no_transmission, [])
        /\ (dS =? 0)%float = true
        /\ (dI =? - dR)%float = true).
Proof.
  split.
  - apply (proj1 no_contact_no_infection
             {| beta := Q2Qc 0; gamma := Q2Qc (1 # 10);
                initial_conditions := []; results := None |}
             (Q2Qc (99 # 100)) (Q2Qc (1 # 100)) (Q2Qc 0) (Q2Qc 0)).
    cbn [beta]. ring.
  - destruct (proj2 no_contact_no_infection MoreExamples.no_transmission
                0.99%float 0.01%float 0%float 0%float eq_refl eq_refl)
      as (dS & dI & dR & E & HS & HI).
    exists dS, dI, dR. split; [exact E|]. split; [exact HS|].
    apply HI.
    assert (ER : dR = (0.1 * 0.01)%float)
      by (vm_compute in E; vm_compute; congruence).
    rewrite ER. reflexivity.
Defined.

(** X9. Without recovery nobody is removed.  With fractions, when
    [gamma = 0] the derivative of [R] is zero and the derivative of [I] is
    the opposite of the derivative of [S].  With floats the same holds, up to
    the sign of a zero, when [gamma] is a zero and [I] is finite, as long as
    the derivative of [S] is not a NaN. *)
Theorem no_recovery_no_removal :
  (forall (self : SIRModel Qc) (S I R t : Qc),
      gamma self = Q2Qc 0 ->
      exists dS dI dR,
        sir_equations [S; I; R] t self = (Ok [dS; dI; dR], self, [])
        /\ dR = Q2Qc 0 /\ (dI = - dS)%Qc)
  /\ (forall (self : SIRModel float) (S I R t : float),
        (gamma self =? 0)%float = true ->
        is_finite I = true ->
        exists dS dI dR,
          sir_equations [S; I; R] t self = (Ok [dS; dI; dR], self, [])
          /\ (dR =? 0)%float = true
          /\ (is_nan dS = false -> (dI =? - dS)%float = true)).
Proof.
  split.
  - intros self S I R t Hg. rewrite sir_equations_three.
    cbn [neg sub mul fraction_number]. do 3 eexists.
    split; [reflexivity|]. rewrite Hg. split; ring.
  - intros self S I R t Hg HI. rewrite sir_equations_three.
    cbn [neg sub mul float_number]. rewrite Float64Facts.opp_flux.
    do 3 eexists. split; [reflexivity|].
    pose proof (@Float64ZeroFacts.mul_zero_l _ _ Hg HI) as Hrec.
    split; [exact Hrec|].
    rewrite Float64ZeroFacts.is_nan_opp, Float64Facts.opp_involutive.
    intros Hnan. now apply Float64ZeroFacts.sub_zero_r.
Qed.

Lemma no_recovery_no_removal_witness :
  (exists dS dI dR,
      sir_equations [Q2Qc (99 # 100); Q2Qc (1 # 100); Q2Qc 0] (Q2Qc 0)
        {| beta := Q2Qc (3 # 10); gamma := Q2Qc 0;
           initial_conditions := []; results := None |}
      = (Ok [dS; dI; dR],
         {| beta := Q2Qc (3 # 10); gamma := Q2Qc 0;
            initial_conditions := []; results := None |}, [])
      /\ dR = Q2Qc 0 /\ (dI = - dS)%Qc)
  /\ (exists dS dI dR,
        sir_equations [0.99; 0.01; 0]%float 0%float MoreExamples.no_recovery
        = (Ok [dS; dI; dR], MoreExamples.no_recovery, [])
        /\ (dR =? 0)%float = true
        /\ (dI =? - dS)%float = true).
Proof.
  split.
  - apply (proj1 no_recovery_no_removal
             {| beta := Q2Qc (3 # 10); gamma := Q2Qc 0;
                initial_conditions := []; results := None |}
             (Q2Qc (99 # 100)) (Q2Qc (1 # 100)) (Q2Qc 0) (Q2Qc 0)).
    reflexivity.
  - destruct (proj2 no_recovery_no_removal MoreExamples.no_recovery
                0.99%float 0.01%float 0%float 0%float eq_refl eq_refl)
      as (dS & dI & dR & E & HR & HI).
    exists dS, dI, dR. split; [exact E|]. split; [exact HR|].
    apply HI.
    assert (ES : dS = (- 0.3 * 0.99 * 0.01)%float)
      by (vm_compute in E; vm_compute; congruence).
    rewrite ES. reflexivity.
Defined.

(** X10. For non-negative rates and a state with non-negative [S] and [I],
    susceptibles never increase and recovered never decrease: the derivative
    of [S] is [<= 0] and the derivative of [R] is [>= 0].  This is exact with
    fractions; with floats it holds for each of the two derivatives that is
    not a NaN (an infinite factor times a zero). *)
Theorem susceptible_falls_recovered_rises :
  (forall (self : SIRModel Qc) (S I R t : Qc),
      (0 <= beta self)%Qc -> (0 <= gamma self)%Qc ->
      (0 <= S)%Qc -> (0 <= I)%Qc ->
      exists dS dI dR,
        sir_equations [S; I; R] t self = (Ok [dS; dI; dR], self, [])
        /\ (dS <= 0)%Qc /\ (0 <= dR)%Qc)
  /\ (forall (self : SIRModel float) (S I R t : float),
        (0 <=? beta self)%float = true -> (0 <=? gamma self)%float = true ->
        (0 <=? S)%float = true -> (0 <=? I)%float = true ->
        exists dS dI dR,
          sir_equations [S; I; R] t self = (Ok [dS; dI; dR], self, [])
          /\ (is_nan dS = false -> (dS <=? 0)%float = true)
          /\ (is_nan dR = false -> (0 <=? dR)%float = true)).
Proof.
  split.
  - intros self S I R t Hb Hg HS HI. rewrite sir_equations_three.
    cbn [neg sub mul fraction_number]. do 3 eexists.
    split; [reflexivity|]. split.
    + replace (- beta self * S * I)%Qc with (- (beta self * S * I))%Qc by ring.
      apply Qc_opp_nonpos. now repeat apply Qc_mul_nonneg.
    + now apply Qc_mul_nonneg.
  - intros self S I R t Hb Hg HS HI. rewrite sir_equations_three.
    cbn [neg sub mul float_number]. rewrite Float64Facts.opp_flux.
    do 3 eexists. split; [reflexivity|]. split.
    + rewrite Float64ZeroFacts.is_nan_opp. intros Hnan.
      apply Float64ZeroFacts.opp_nonpos.
      apply Float64ZeroFacts.mul_nonneg; [|assumption|assumption].
      apply Float64ZeroFacts.mul_nonneg; [assumption|assumption|].
      now apply Float64ZeroFacts.is_nan_mul_l in Hnan.
    + intros Hnan. now apply Float64ZeroFacts.mul_nonneg.
Qed.

Lemma susceptible_falls_recovered_rises_witness :
  (exists dS dI dR,
      sir_equations [Q2Qc (99 # 100); Q2Qc (1 # 100); Q2Qc 0] (Q2Qc 0)
        Examples.textbook_fraction
      = (Ok [dS; dI; dR], Examples.textbook_fraction, [])
      /\ (dS <= 0)%Qc /\ (0 <= dR)%Qc)
  /\ (exists dS dI dR,
        sir_equations [0.99; 0.01; 0]%float 0%float Examples.textbook
        = (Ok [dS; dI; dR], Examples.textbook, [])
        /\ (dS <=? 0)%float = true
        /\ (0 <=? dR)%float = true).
Proof.
  split.
  - apply (proj1 susceptible_falls_recovered_rises Examples.textbook_fraction
             (Q2Qc (99 # 100)) (Q2Qc (1 # 100)) (Q2Qc 0) (Q2Qc 0));
      vm_compute; discriminate.
  - destruct (proj2 susceptible_falls_recovered_rises Examples.textbook
                0.99%float 0.01%float 0%float 0%float
                eq_refl eq_refl eq_refl eq_refl)
      as (dS & dI & dR & E & HS & HR).
    exists dS, dI, dR. split; [exact E|].
    assert (ES : dS = (- 0.3 * 0.99 * 0.01)%float)
      by (vm_compute in E; vm_compute; congruence).
    assert (ER : dR = (0.1 * 0.01)%float)
      by (vm_compute in E; vm_compute; congruence).
    split.
    + apply HS. rewrite ES. reflexivity.
    + apply HR. rewrite ER. reflexivity.
Defined.
